(** * Seina-Cogs: the TagScript call sites of the boostutils, tags and
    applications cogs, and the template engine they drive.

    Python values are modelled as follows.
    - [str] is [string]; one [ascii] stands for one character of the Python
      string, so [len] is [String.length] and [s[:n]] is [str_take n s].
    - [int] is [Z].
    - A call that may raise returns a [pyresult]: [Returned v] or [Raised e].
    - A [dict] with string keys is a [gmap string _]. *)

From Stdlib Require Import ZArith Ascii String List Lia.
From stdpp Require Import base option list gmap strings pretty.

Local Open Scope Z_scope.

(** ** Python results and exceptions *)

Inductive exn_class :=
| TagErrorClass
| TagCharacterLimitReachedClass
| BadArgumentClass
| UserFeedbackCheckFailureClass
| IndexErrorClass
| OtherClass (name : string).

Record exn := Exn { exn_cls : exn_class; exn_msg : string }.

(** [isinstance(e, TagError)]: [TagCharacterLimitReached] derives from
    [TagError]. *)
Definition is_TagError (e : exn) : bool :=
  match exn_cls e with
  | TagErrorClass | TagCharacterLimitReachedClass => true
  | _ => false
  end.

(** [str(e)] of an exception built from one message argument. *)
Definition exn_str (e : exn) : string := exn_msg e.

Inductive pyresult (A : Type) :=
| Returned (a : A)
| Raised (e : exn).
Arguments Returned {A} a.
Arguments Raised {A} e.

#[global] Instance pyresult_ret : MRet pyresult := fun _ a => Returned a.
#[global] Instance pyresult_fmap : FMap pyresult := fun _ _ f m =>
  match m with
  | Returned a => Returned (f a)
  | Raised e => Raised e
  end.
#[global] Instance pyresult_bind : MBind pyresult := fun _ _ f m =>
  match m with
  | Returned a => f a
  | Raised e => Raised e
  end.

(** ** Python strings *)

(** [len(s)] *)
Definition len (s : string) : Z := Z.of_nat (String.length s).

(** [s[:n]] for a non-negative [n]. *)
Fixpoint str_take (n : nat) (s : string) : string :=
  match n, s with
  | O, _ => ""
  | S _, "" => ""
  | S n', String c s' => String c (str_take n' s')
  end.

(** [bool(s)] for a [str] or [None]. *)
Definition str_truthy (s : option string) : bool :=
  match s with
  | None | Some "" => false
  | Some _ => true
  end.

(** [c.lower()] and [s.lower()] on the ASCII letters. *)
Definition lower_char (c : ascii) : ascii :=
  let n := nat_of_ascii c in
  if (Nat.leb 65 n && Nat.leb n 90)%bool then ascii_of_nat (n + 32) else c.

Fixpoint lower (s : string) : string :=
  match s with
  | "" => ""
  | String c s' => String (lower_char c) (lower s')
  end.

(** [s.replace(old, new)] for a one-character [old]. *)
Fixpoint replace_char (old : ascii) (new : string) (s : string) : string :=
  match s with
  | "" => ""
  | String c s' =>
      if Ascii.eqb c old then new +:+ replace_char old new s'
      else String c (replace_char old new s')
  end.

Definition newline : ascii := "010"%char.

(** [c in s] for a character [c]. *)
Fixpoint str_contains (c : ascii) (s : string) : bool :=
  match s with
  | "" => false
  | String c' s' => Ascii.eqb c' c || str_contains c s'
  end.

(** ** Python lists *)

(** [l[i]] for a non-negative [i]. *)
Definition getitem {A} (l : list A) (i : nat) : pyresult A :=
  match l !! i with
  | Some a => Returned a
  | None => Raised (Exn IndexErrorClass "list index out of range")
  end.

(** [bool(l)] *)
Definition list_truthy {A} (l : list A) : bool :=
  match l with
  | [] => false
  | _ => true
  end.

(** ** The template engine

    [import TagScriptEngine as tse]: the interpreter, its parser, blocks,
    adapters and [Response] are not among the source files.  Every
    definition of this module is modelled from the specification of the
    engine; the section of the specification is given with each. *)

Module TagScript.

(** Modelled from the spec: [tse.Adapter] (3, 6), "given a parameter
    string, returns a string": [resolve(parameter: string|absent) -> string]. *)
Definition Adapter : Type := option string → string.

(** Modelled from the spec: [tse.StringAdapter], the adapter of a literal
    value (4.3, "binds a literal value to a new adapter name"). *)
Definition StringAdapter (value : string) : Adapter := λ _, value.

(** Modelled from the spec: the values of the actions mapping (4.3, 6).
    The embed action is the structure of key/value pairs accumulated by the
    embed block; the command action is the string to re-dispatch. *)
Inductive ActionValue :=
| EmbedAction (fields : gmap string string)
| CommandAction (command : string).

(** Modelled from the spec: [bool(value)] of an action value; an embed
    with no field set and an empty string are falsy. *)
Definition action_truthy (v : ActionValue) : bool :=
  match v with
  | EmbedAction fields => bool_decide (fields ≠ ∅)
  | CommandAction command => str_truthy (Some command)
  end.

(** Modelled from the spec: [tse.Response] (3, 6), "the result of one
    process call", with a body ([string|absent]), the actions and the
    adapters referenced during evaluation. *)
Record Response := {
  body : option string;
  actions : gmap string ActionValue;
  variables : gmap string Adapter;
}.

(** Modelled from the spec: the nodes of the parser (4.1), "each node is
    either literal text or block (name, parameter-span-or-absent,
    payload-span-or-absent)".  A block node keeps the bracketed text it was
    read from. *)
Inductive Node :=
| Literal (text : string)
| BlockNode (raw : string) (name : string)
    (parameter : option string) (payload : option string).

(** Modelled from the spec: the start and end markers of a block
    expression (4.1, "conventionally { ... }"). *)
Definition block_start : ascii := "{"%char.
Definition block_end : ascii := "}"%char.

(** Modelled from the spec: the parameter span after ["("] (4.1), up to
    the [")"] that closes it, nested block markers balanced.  [None] when
    no [")"] closes it. *)
Fixpoint split_parameter (s : string) (depth : nat) (acc : string)
  : option (string * string) :=
  match s with
  | "" => None
  | String c s' =>
      if Ascii.eqb c block_start then
        split_parameter s' (S depth) (acc +:+ String c "")
      else if Ascii.eqb c block_end then
        split_parameter s' (Nat.pred depth) (acc +:+ String c "")
      else if (Ascii.eqb c ")" && Nat.eqb depth 0)%bool then Some (acc, s')
      else split_parameter s' depth (acc +:+ String c "")
  end.

(** Modelled from the spec: the text between the markers of a block
    (4.1), split into name, optional [(parameter)] "immediately after the
    block name" and optional [:payload] "after the parameter (or directly
    after the name if no parameter)".  [None] when the text after the
    parameter is not a payload. *)
Fixpoint split_verb (s : string) (name : string)
  : option (string * option string * option string) :=
  match s with
  | "" => Some (name, None, None)
  | String c s' =>
      if Ascii.eqb c ":" then Some (name, None, Some s')
      else if Ascii.eqb c "(" then
        match split_parameter s' 0 "" with
        | Some (parameter, "") => Some (name, Some parameter, None)
        | Some (parameter, String c' payload) =>
            if Ascii.eqb c' ":" then Some (name, Some parameter, Some payload)
            else None
        | None => None
        end
      else split_verb s' (name +:+ String c "")
  end.

(** Modelled from the spec: the original bracketed expression (4.2). *)
Definition bracketed (inner : string) : string :=
  String block_start inner +:+ String block_end "".

(** Modelled from the spec: the node of a terminated block expression
    (4.1); text that does not split into name, parameter and payload stays
    literal. *)
Definition make_node (inner : string) : Node :=
  match split_verb inner "" with
  | Some (name, parameter, payload) =>
      BlockNode (bracketed inner) name parameter payload
  | None => Literal (bracketed inner)
  end.

(** Modelled from the spec: the literal node of the text read so far, if
    any (4.1). *)
Definition flush (lit : string) : list Node :=
  match lit with
  | "" => []
  | _ => [Literal lit]
  end.

(** Modelled from the spec: the parser (4.1), one pass over the template.  [lit] is
    the literal text read since the last node; [opened] is [Some (d, inner)]
    inside a block expression, [d] the number of nested start markers
    still open and [inner] the text read since the start marker.  At the
    end of the input an unmatched start marker "and following text" are
    literal text. *)
Fixpoint scan (s : string) (lit : string) (opened : option (nat * string))
  : list Node :=
  match s, opened with
  | "", None => flush lit
  | "", Some (_, inner) => flush (lit +:+ String block_start inner)
  | String c s', None =>
      if Ascii.eqb c block_start then scan s' lit (Some (O, ""))
      else scan s' (lit +:+ String c "") None
  | String c s', Some (d, inner) =>
      if Ascii.eqb c block_start then
        scan s' lit (Some (S d, inner +:+ String c ""))
      else if Ascii.eqb c block_end then
        match d with
        | O => flush lit ++ make_node inner :: scan s' "" None
        | S d' => scan s' lit (Some (d', inner +:+ String c ""))
        end
      else scan s' lit (Some (d, inner +:+ String c ""))
  end.

(** Modelled from the spec: the parser's entry point (4.1), from the
    template to its "ordered sequence of nodes". *)
Definition build_node_tree (message : string) : list Node :=
  scan message "" None.

(** Modelled from the spec: the evaluation context of one [process] call
    (4.2, 5): the adapters in scope, the actions set so far and the
    adapters that were referenced. *)
Record Context := {
  ctx_variables : gmap string Adapter;
  ctx_actions : gmap string ActionValue;
  ctx_referenced : gmap string Adapter;
}.

(** Modelled from the spec: what a block's execution hands back (6),
    [BlockResult{ text, action, consumed }]. *)
Record BlockResult := {
  text : option string;
  action : option (string * ActionValue);
  consumed : bool;
}.

(** Modelled from the spec: the result of a block that does not take the
    node (6, [consumed] false). *)
Definition declined : BlockResult :=
  {| text := None; action := None; consumed := false |}.

(** Modelled from the spec: the built-in blocks the host wires in (4.3):
    variable getter, assignment, command and embed. *)
Inductive Block :=
| LooseVariableGetterBlock
| AssignmentBlock
| CommandBlock
| EmbedBlock.

(** Modelled from the spec: which names a block answers to (3, 4.2).
    Block names are case-insensitive; the variable getter answers to the
    name of an adapter in scope. *)
Definition will_accept (b : Block) (name : string) (ctx : Context) : bool :=
  match b with
  | LooseVariableGetterBlock => bool_decide (is_Some (ctx_variables ctx !! name))
  | AssignmentBlock => bool_decide (lower name = "assign")
  | CommandBlock => bool_decide (lower name = "command")
  | EmbedBlock => bool_decide (lower name = "embed")
  end.

(** Modelled from the spec: the blocks that are found by their own name
    (4.2), as opposed to the variable getter. *)
Definition is_named (b : Block) : bool :=
  match b with
  | LooseVariableGetterBlock => false
  | _ => true
  end.

(** Modelled from the spec: whether the evaluator resolves the payload
    before the block runs (3, "eager").  None of the four built-ins is a
    lazy (conditional) block. *)
Definition eager (b : Block) : bool := true.

(** Modelled from the spec: the dispatch (4.2).  A name that matches a
    block goes to it; otherwise a name that "matches a registered adapter
    rather than a block" goes to the variable getter. *)
Definition find_block (blocks : list Block) (name : string) (ctx : Context)
  : option Block :=
  match List.find (λ b, is_named b && will_accept b name ctx) blocks with
  | Some b => Some b
  | None => List.find (λ b, negb (is_named b) && will_accept b name ctx) blocks
  end.

(** Modelled from the spec: the key/value pairs of the embed action
    accumulated so far (4.3). *)
Definition embed_fields (ctx : Context) : gmap string string :=
  match ctx_actions ctx !! "embed" with
  | Some (EmbedAction fields) => fields
  | _ => ∅
  end.

(** Modelled from the spec: the execution of the four built-in blocks
    (4.3).  The getter resolves the name against the adapters; assignment
    binds the payload to the name given as parameter; command emits the
    "command" action; embed adds a key/value pair to the "embed" action. *)
Definition execute (b : Block) (name : string)
    (parameter payload : option string) (ctx : Context)
  : BlockResult * Context :=
  match b with
  | LooseVariableGetterBlock =>
      match ctx_variables ctx !! name with
      | Some adapter =>
          ({| text := Some (adapter parameter); action := None; consumed := true |},
           {| ctx_variables := ctx_variables ctx;
              ctx_actions := ctx_actions ctx;
              ctx_referenced := <[name := adapter]> (ctx_referenced ctx) |})
      | None => (declined, ctx)
      end
  | AssignmentBlock =>
      match parameter with
      | Some target =>
          ({| text := None; action := None; consumed := true |},
           {| ctx_variables :=
                <[target := StringAdapter (default "" payload)]> (ctx_variables ctx);
              ctx_actions := ctx_actions ctx;
              ctx_referenced := ctx_referenced ctx |})
      | None => (declined, ctx)
      end
  | CommandBlock =>
      match payload with
      | Some command =>
          ({| text := None; action := Some ("command", CommandAction command);
              consumed := true |}, ctx)
      | None => (declined, ctx)
      end
  | EmbedBlock =>
      match parameter, payload with
      | Some key, Some value =>
          ({| text := None;
              action := Some ("embed",
                              EmbedAction (<[lower key := value]> (embed_fields ctx)));
              consumed := true |}, ctx)
      | _, _ => (declined, ctx)
      end
  end.

(** Modelled from the spec: "last write wins" on the actions mapping (4.2). *)
Definition set_action (a : option (string * ActionValue)) (ctx : Context) : Context :=
  match a with
  | Some (key, value) =>
      {| ctx_variables := ctx_variables ctx;
         ctx_actions := <[key := value]> (ctx_actions ctx);
         ctx_referenced := ctx_referenced ctx |}
  | None => ctx
  end.

Section Evaluator.

Variable blocks : list Block.

(** How a nested span is resolved: [None] once the nesting bound is
    reached (4.2, "recursion depth is bounded"). *)
Variable resolve : option (string → Context → string * Context).

(** Modelled from the spec: the resolution of a span that may be absent
    (4.2). *)
Definition resolve_span (r : string → Context → string * Context)
    (span : option string) (ctx : Context) : option string * Context :=
  match span with
  | Some s => let '(out, ctx') := r s ctx in (Some out, ctx')
  | None => (None, ctx)
  end.

(** Modelled from the spec: the evaluator on one node (4.2).  A literal is
    appended verbatim; a block has its payload, then its parameter,
    resolved before it runs; an unknown name, a block that declines and a
    block nested beyond the bound are rendered as the original bracketed
    text. *)
Definition eval_node (n : Node) (ctx : Context) : string * Context :=
  match n with
  | Literal t => (t, ctx)
  | BlockNode raw name parameter payload =>
      match resolve, find_block blocks name ctx with
      | Some r, Some b =>
          let '(payload', ctx1) :=
            if eager b then resolve_span r payload ctx else (payload, ctx) in
          let '(parameter', ctx2) := resolve_span r parameter ctx1 in
          let '(result, ctx3) := execute b name parameter' payload' ctx2 in
          if consumed result
          then (default "" (text result), set_action (action result) ctx3)
          else (raw, ctx3)
      | _, _ => (raw, ctx)
      end
  end.

(** Modelled from the spec: the evaluator on the node sequence (4.2), left
    to right, the body being the concatenation of the outputs. *)
Fixpoint eval_nodes (nodes : list Node) (ctx : Context) : string * Context :=
  match nodes with
  | [] => ("", ctx)
  | n :: rest =>
      let '(out, ctx1) := eval_node n ctx in
      let '(outs, ctx2) := eval_nodes rest ctx1 in
      (out +:+ outs, ctx2)
  end.

End Evaluator.

(** Modelled from the spec: parse and evaluate a span (4.2); [depth]
    nested levels may still be resolved below it. *)
Fixpoint solve (blocks : list Block) (depth : nat) (message : string) (ctx : Context)
  : string * Context :=
  eval_nodes blocks
    (match depth with
     | O => None
     | S d => Some (solve blocks d)
     end)
    (build_node_tree message) ctx.

(** Modelled from the spec: [tse.Interpreter] (2, 4.3): its block
    registry, the process-wide adapters and the nesting bound. *)
Record Interpreter := {
  interp_blocks : list Block;
  interp_adapters : gmap string Adapter;
  max_depth : nat;
}.

(** Modelled from the spec: [Interpreter.process] (6),
    [process(template, seed_variables) -> Response], the sole entry point.
    Seed variables win over the process-wide adapters. *)
Definition process (self : Interpreter) (message : string)
    (seed_variables : gmap string Adapter) : pyresult Response :=
  let ctx := {| ctx_variables := seed_variables ∪ interp_adapters self;
                ctx_actions := ∅;
                ctx_referenced := ∅ |} in
  let '(output, ctx') := solve (interp_blocks self) (max_depth self) message ctx in
  Returned {| body := Some output;
              actions := ctx_actions ctx';
              variables := ctx_referenced ctx' |}.

End TagScript.

(** ** boostutils/_tagscript.py *)

Module BoostUtils.
Import TagScript.

Definition TAGSCRIPT_LIMIT : Z := 10000.

Definition blocks : list Block :=
  [LooseVariableGetterBlock; AssignmentBlock; CommandBlock; EmbedBlock].

(** [engine = tse.Interpreter(blocks)].  The nesting bound of the
    interpreter is a constant of the engine that the cog does not set;
    it is left open as [depth_limit]. *)
Definition engine (depth_limit : nat) : Interpreter :=
  {| interp_blocks := blocks; interp_adapters := ∅; max_depth := depth_limit |}.

(** A value of the keyword-argument dictionary ([Dict[str, Any]]). *)
Inductive Any :=
| AnyStr (s : string)
| AnyAction (a : ActionValue).

Definition process_tagscript (depth_limit : nat) (content : string)
    (seed_variables : gmap string Adapter) : pyresult (gmap string Any) :=
  output ← process (engine depth_limit) content seed_variables;
  let kwargs : gmap string Any := ∅ in
  let kwargs :=
    if str_truthy (body output)
    then <["content" := AnyStr (str_take 2000 (default "" (body output)))]> kwargs
    else kwargs in
  let kwargs :=
    match actions output !! "embed" with
    | Some embed =>
        if action_truthy embed then <["embed" := AnyAction embed]> kwargs else kwargs
    | None => kwargs
    end in
  mret kwargs.

Section Validation.

(** [redbot.core.utils.chat_formatting.humanize_number] *)
Variable humanize_number : Z → string.

(** [TagCharacterLimitReached(limit, length)] *)
Definition TagCharacterLimitReached (limit length : Z) : exn :=
  Exn TagCharacterLimitReachedClass
    ("TagScript cannot be longer than " +:+ humanize_number limit
     +:+ " (**" +:+ humanize_number length +:+ "**).").

(** Modelled from the spec: the cog's [validate_tagscript], which is
    not part of the source files: a template longer than the source
    length limit is refused with the named error that carries the
    limit and the actual length. *)
Definition validate_tagscript (tagscript : string) : pyresult bool :=
  let length := len tagscript in
  if TAGSCRIPT_LIMIT <? length
  then Raised (TagCharacterLimitReached TAGSCRIPT_LIMIT length)
  else Returned true.

End Validation.

(** [TagscriptConverter.convert]; [validate] is [ctx.cog.validate_tagscript]. *)
Definition convert (validate : string → pyresult bool) (argument : string)
  : pyresult string :=
  match validate argument with
  | Raised e =>
      if is_TagError e then Raised (Exn BadArgumentClass (exn_str e))
      else Raised e
  | Returned _ => Returned argument
  end.

End BoostUtils.

(** ** tags/mixins/commands.py *)

Module Tags.
Import TagScript.

Record Tag := {
  tag_name : string;
  tagscript : string;
  aliases : list string;
}.

(** The preview of a tagscript in the words of the listing: newlines
    become spaces, and more than 23 characters are cut down to the first
    20 followed by three dots. *)
Definition tag_preview (script : string) : string :=
  let flat := replace_char newline " " script in
  if decide (23 < String.length flat)%nat
  then str_take 20 flat +:+ "..."
  else flat.

Section GenerateTagList.

(** [str(tag)] and [discord.utils.escape_markdown]. *)
Variable tag_str : Tag → string.
Variable escape_markdown : string → string.

(** One round of the loop of [generate_tag_list]. *)
Definition tag_list_step (acc : list string * list string) (tag : Tag)
  : list string * list string :=
  let '(aliases_acc, description) := acc in
  let aliases_acc := aliases_acc ++ aliases tag in
  let tagscript := replace_char newline " " (tagscript tag) in
  let tagscript :=
    if 23 <? len tagscript then str_take 20 tagscript +:+ "..." else tagscript in
  let tagscript := escape_markdown tagscript in
  (aliases_acc, description ++ ["`" +:+ tag_str tag +:+ "` - " +:+ tagscript]).

Definition generate_tag_list (tags : list Tag) : gmap string (list string) :=
  let '(aliases_acc, description) := fold_left tag_list_step tags ([], []) in
  {[ "aliases" := aliases_acc; "description" := description ]}.

(** The entry of a tag in the words of the listing: its name in
    backticks, a dash, and the escaped preview. *)
Definition tag_line (tag : Tag) : string :=
  "`" +:+ tag_str tag +:+ "` - " +:+ escape_markdown (tag_preview (tagscript tag)).

End GenerateTagList.

(** [x or y] on [Optional[bool]] values: [x] when it is truthy, else [y]. *)
Definition py_or (x y : option bool) : option bool :=
  match x with
  | Some true => x
  | _ => y
  end.

(** What [invoketag] does with the context. *)
Inductive InvokeEffect :=
| CtxSend (content : string)
| ProcessTag (tag : Tag) (seed_variables : gmap string Adapter).

Definition is_BadArgument (e : exn) : bool :=
  match exn_cls e with
  | BadArgumentClass => true
  | _ => false
  end.

(** [invoketag]; [tag_convert] is [TagConverter(check_global=True).convert]. *)
Definition invoketag (tag_convert : string → pyresult Tag)
    (response : option bool) (tag_name : string) (args : string)
  : pyresult (list InvokeEffect) :=
  let response := py_or response (Some true) in
  match tag_convert tag_name with
  | Raised e =>
      if is_BadArgument e then
        if bool_decide (response = Some true)
        then Returned [CtxSend (exn_str e)]
        else Returned []
      else Raised e
  | Returned _tag =>
      Returned [ProcessTag _tag {[ "args" := StringAdapter args ]}]
  end.

(** [tag_run] up to its call of [send_tag_response]: the actions and the
    content handed over.  [engine_process] is [self.engine.process] of the
    tags cog. *)
Definition tag_run
    (engine_process : string → gmap string Adapter → pyresult Response)
    (seed : gmap string Adapter) (tagscript : string)
  : pyresult (gmap string ActionValue * option string) :=
  output ← engine_process tagscript seed;
  let actions := actions output in
  let content :=
    if str_truthy (body output)
    then Some (str_take 2000 (default "" (body output)))
    else None in
  mret (actions, content).

Record Attachment := {
  filename : string;
  read : pyresult string;
}.

(** [not msg.attachments and not msg.attachments[0].filename == expected]:
    the right operand is evaluated only when the left one is true. *)
Definition backup_check (attachments : list Attachment) (expected : string)
  : pyresult bool :=
  if negb (list_truthy attachments) then
    first ← getitem attachments 0;
    mret (negb (String.eqb (filename first) expected))
  else mret false.

Inductive RestoreEffect (J : Type) :=
| ConfigSet (data : J)
| Initialize
| Tick
| Send (content : string).
Arguments ConfigSet {J} data.
Arguments Initialize {J}.
Arguments Tick {J}.
Arguments Send {J} content.

Definition backup_failure : exn :=
  Exn UserFeedbackCheckFailureClass
    "You must pass a message that has a backup file attachment sent by me.".

Section Restore.

(** [orjson.loads] *)
Context {J : Type} (loads : string → pyresult J).

(** What both commands do once the check has passed. *)
Definition restore_from (attachments : list Attachment)
  : pyresult (list (RestoreEffect J)) :=
  first ← getitem attachments 0;
  raw ← read first;
  data ← loads raw;
  mret [ConfigSet data; Initialize; Tick; Send "Backup restored!"].

Definition tag_restore (guild_id : Z) (attachments : list Attachment)
  : pyresult (list (RestoreEffect J)) :=
  failed ← backup_check attachments ("tag-backup-" +:+ pretty guild_id +:+ ".json");
  if failed : bool then Raised backup_failure
  else restore_from attachments.

Definition tag_global_restore (attachments : list Attachment)
  : pyresult (list (RestoreEffect J)) :=
  failed ← backup_check attachments "global-tag-backup.json";
  if failed : bool then Raised backup_failure
  else restore_from attachments.

End Restore.

End Tags.

(** ** applications/pipes/listeners.py *)

Module Applications.

Record Question := {
  q_text : string;
  q_type : string;
  q_required : bool;
  q_choices : list string;
}.

Record Answer := {
  a_question : string;
  a_type : string;
  a_answer : string;
}.

(** The in-progress [Response] of the applicant. *)
Record Response := {
  r_user : Z;
  r_answers : list Answer;
}.

Inductive ViewKind := CancelView | ChoiceView | PatchedConfirmView.

(** What the handler does to the outside world, in order: follow-ups of
    the interaction, direct messages to the applicant (a text, the embed
    of the opening message, a question with its view), waits (timeouts in
    seconds) and the disabling of a view. *)
Inductive Effect :=
| FollowupSend (content : string) (ephemeral : bool)
| UserSend (content : string)
| UserSendEmbed (description : string)
| UserSendView (view : ViewKind) (description : string) (required : bool)
| WaitFor (event : string) (timeout : Z)
| ViewWait (view : ViewKind)
| ViewOnTimeout (view : ViewKind).

(** What the outside world answers while one question is asked. *)
Record QuestionEnv := {
  view_sent : bool;               (* the question reached the user, else discord.HTTPException *)
  reply : option string;          (* wait_for: the content of the message, None is asyncio.TimeoutError *)
  view_cancel : bool;             (* view.cancel *)
  view_skip : bool;               (* view.skip *)
  choice_timed_out : bool;        (* the value of choice.wait() *)
  choice_answer : option string;  (* choice.answer, None is MISSING *)
  confirm_result : option bool;   (* confirm.result *)
  answer_sent : bool;             (* the echo of the answer reached the user *)
}.

(** How the body of the loop leaves a question. *)
Inductive Flow :=
| Answered (content : string)
| Continue
| Return
| Raise (e : exn).

Definition HTTPException : exn := Exn (OtherClass "HTTPException") "".

Definition question_description (idx : nat) (question : Question) : string :=
  "**__Question " +:+ pretty (idx + 1)%nat +:+ "__**" +:+ String newline (q_text question).

Definition TEXT_TIMEOUT : Z := 300.
Definition CONFIRM_TIMEOUT : Z := 120.

(** The branch of a question of type "text". *)
Definition ask_text (idx : nat) (question : Question) (env : QuestionEnv)
  : Flow * list Effect :=
  let send := UserSendView CancelView (question_description idx question)
                (q_required question) in
  if negb (view_sent env) then
    (Return, [send; FollowupSend "Something went wrong, please try again later!" true])
  else
    match reply env with
    | None =>
        (Return,
         [send; WaitFor "message" TEXT_TIMEOUT; ViewOnTimeout CancelView;
          UserSend "Application timed out while waiting for your response.";
          FollowupSend "Application timed out." true])
    | Some message_content =>
        let before := [send; WaitFor "message" TEXT_TIMEOUT; ViewOnTimeout CancelView] in
        if view_cancel env then
          (Return, before ++ [FollowupSend "Application cancelled!" true])
        else if view_skip env then (Answered "Skipped", before)
        else if str_truthy (Some message_content) then (Answered message_content, before)
        else
          (Return,
           before ++ [UserSend "Something went wrong, I failed to parse your response.";
                      FollowupSend "Application failed, try again later." true])
    end.

(** What is seen of a text question whose reply never comes: the
    question, the wait of 300 seconds, the disabled view, the notice and
    the final follow-up. *)
Definition timed_out_effects (idx : nat) (question : Question) : list Effect :=
  [UserSendView CancelView (question_description idx question) (q_required question);
   WaitFor "message" 300;
   ViewOnTimeout CancelView;
   UserSend "Application timed out while waiting for your response.";
   FollowupSend "Application timed out." true].

(** The branch of a question of type "choices". *)
Definition ask_choices (idx : nat) (question : Question) (env : QuestionEnv)
  : Flow * list Effect :=
  let send := UserSendView ChoiceView (question_description idx question)
                (q_required question) in
  if negb (view_sent env) then (Raise HTTPException, [send])
  else
    let before :=
      [send; ViewWait ChoiceView]
      ++ (if negb (choice_timed_out env) then [ViewOnTimeout ChoiceView] else []) in
    if view_cancel env then
      (Return, before ++ [FollowupSend "Application cancelled!" true])
    else if view_skip env then (Answered "Skipped", before)
    else
      match choice_answer env with
      | None =>
          (Return,
           before ++ [UserSend "Something went wrong, I failed to parse your response.";
                      FollowupSend "Application failed, try again later." true])
      | Some answer => (Answered answer, before)
      end.

(** The branch of a question of type "boolean". *)
Definition ask_boolean (idx : nat) (question : Question) (env : QuestionEnv)
  : Flow * list Effect :=
  let send := UserSendView PatchedConfirmView (question_description idx question)
                (q_required question) in
  if negb (view_sent env) then (Raise HTTPException, [send])
  else
    let before := [send; ViewWait PatchedConfirmView] in
    if view_cancel env then
      (Return, before ++ [ViewOnTimeout PatchedConfirmView;
                          FollowupSend "Application cancelled!" true])
    else if view_skip env then
      (Answered "Skipped", before ++ [ViewOnTimeout PatchedConfirmView])
    else
      match confirm_result env with
      | None =>
          (Return,
           before ++ [ViewOnTimeout PatchedConfirmView;
                      UserSend "Application timed out while waiting for your response.";
                      FollowupSend "Application timed out." true])
      | Some false => (Answered "No", before)
      | Some true => (Answered "Yes", before)
      end.

(** The dispatch on [question.type.lower()]. *)
Definition ask_question (idx : nat) (question : Question) (env : QuestionEnv)
  : Flow * list Effect :=
  let type := lower (q_type question) in
  if bool_decide (type = "text") then ask_text idx question env
  else if bool_decide (type = "choices") && bool_decide (0 < length (q_choices question))%nat
  then ask_choices idx question env
  else if bool_decide (type = "boolean") then ask_boolean idx question env
  else (Continue, []).

(** The state of the handler: the response being filled in and what was
    done so far. *)
Record State := {
  response : Response;
  trace : list Effect;
}.

Definition log (effects : list Effect) (st : State) : State :=
  {| response := response st; trace := trace st ++ effects |}.

Definition append_answer (answer : Answer) (st : State) : State :=
  {| response := {| r_user := r_user (response st);
                    r_answers := r_answers (response st) ++ [answer] |};
     trace := trace st |}.

(** How the handler ends: it returned, it raised, or (for the loop) all
    questions were asked. *)
Inductive Outcome :=
| Completed (st : State)
| Returns (st : State)
| Raises (e : exn) (st : State).

Section Handler.

(** [redbot.core.utils.chat_formatting.box] *)
Variable box : string → string.

Definition answer_echo (idx : nat) (content : string) : string :=
  "Your answer for question no. **" +:+ pretty (idx + 1)%nat +:+ "** is -"
  +:+ String newline (box (str_take 1950 content)).

(** [for idx, question in enumerate(app.questions)], from index [idx], with
    the embed of every round built: [discord.Color.from_str] is taken to
    accept [app.settings.color] here.  The loop with a colour that may be
    refused is [Handler.ask_questions]. *)
Fixpoint ask_questions (idx : nat) (questions : list Question)
    (envs : nat → QuestionEnv) (st : State) : Outcome :=
  match questions with
  | [] => Completed st
  | question :: rest =>
      match ask_question idx question (envs idx) with
      | (Continue, effects) => ask_questions (S idx) rest envs (log effects st)
      | (Return, effects) => Returns (log effects st)
      | (Raise e, effects) => Raises e (log effects st)
      | (Answered content, effects) =>
          let answer := {| a_question := q_text question;
                           a_type := lower (q_type question);
                           a_answer := content |} in
          let st := append_answer answer (log effects st) in
          let st := log [UserSend (answer_echo idx content)] st in
          if answer_sent (envs idx) then ask_questions (S idx) rest envs st
          else
            Returns
              (log [FollowupSend
                      "Something went wrong, I failed to send you a dm, please check your dm settings!"
                      true] st)
      end
  end.

(** How the first direct message (the list of questions) went:
    delivered, [discord.Forbidden], or one of [ValueError], [TypeError]
    and [discord.HTTPException]. *)
Inductive Delivery := Delivered | Forbidden | Failed.

Definition question_line (idx : nat) (ques : Question) : string :=
  pretty (idx + 1)%nat +:+ ". " +:+ q_text ques.

(** ["\n".join(lines)] *)
Fixpoint join_lines (lines : list string) : string :=
  match lines with
  | [] => ""
  | [line] => line
  | line :: rest => line +:+ String newline (join_lines rest)
  end.

Definition started_message (questions : list Question) : string :=
  join_lines (imap question_line questions).

(** The part of the handler after the loop: the response is posted to
    the channel of the application, stored and acknowledged.  It runs
    only when every question was asked. *)
Variable submit : State → Outcome.

(** The response created for the applicant, before anything was done. *)
Definition fresh_state (user : Z) : State :=
  {| response := {| r_user := user; r_answers := [] |}; trace := [] |}.

(** The first direct message: the embed that lists the questions. *)
Definition opening_message (questions : list Question) : Effect :=
  UserSendEmbed ("**__Questions__**"
                 +:+ String newline (String newline (started_message questions))).

Definition on_application_applied (user : Z) (questions : list Question)
    (original : Delivery) (envs : nat → QuestionEnv) : Outcome :=
  let st := fresh_state user in
  if negb (list_truthy questions) then
    Returns (log [FollowupSend "There are no questions configured for this application!" true] st)
  else
    let dm := opening_message questions in
    match original with
    | Forbidden =>
        Returns (log [dm; FollowupSend "I failed to send you a dm, please check your dm settings." true] st)
    | Failed =>
        Returns (log [dm; FollowupSend "Something went wrong, please try again later!" true] st)
    | Delivered =>
        match ask_questions 0 questions envs (log [dm] st) with
        | Completed st' => submit st'
        | ended => ended
        end
    end.

End Handler.

(** A run used as an example: a yes/no question that is answered, then a
    text question whose reply never comes. *)
Definition age_question : Question :=
  {| q_text := "Are you over 18?"; q_type := "Boolean";
     q_required := true; q_choices := [] |}.

Definition reason_question : Question :=
  {| q_text := "Why do you apply?"; q_type := "Text";
     q_required := true; q_choices := [] |}.

Definition silent_after_first (idx : nat) : QuestionEnv :=
  {| view_sent := true; reply := None; view_cancel := false; view_skip := false;
     choice_timed_out := false; choice_answer := None;
     confirm_result := match idx with O => Some true | _ => None end;
     answer_sent := true |}.

End Applications.

(** ** applications/pipes/listeners.py: after the questions *)

Module Submission.
Import Applications.

(** The state an outcome of the handler carries. *)
Definition outcome_state (o : Outcome) : State :=
  match o with
  | Completed st | Returns st | Raises _ st => st
  end.

(** The questions the loop has a branch for: type "text", type "choices"
    with at least one choice, type "boolean" (the type compared in lower
    case); every other question is passed over with [continue]. *)
Definition askable (question : Question) : bool :=
  let type := lower (q_type question) in
  bool_decide (type = "text")
  || (bool_decide (type = "choices") && bool_decide (0 < length (q_choices question))%nat)
  || bool_decide (type = "boolean").

(** The values [type.lower()] has in a recorded answer. *)
Definition answer_kinds : list string := ["text"; "choices"; "boolean"].

(** The follow-ups among the effects. *)
Definition is_followup (e : Effect) : bool :=
  match e with
  | FollowupSend _ _ => true
  | _ => false
  end.

(** What the part after the loop reads of [app] and of [interaction.user]. *)
Record Application := {
  app_name : string;
  app_description : string;
  app_thread : bool;      (* app.settings.thread *)
  app_message : string;   (* app.settings.message *)
}.

Record Applicant := {
  mention : string;
  global_name : string;
}.

(** Where responses are kept: [app.responses] in memory, and per
    application name the "responses" list of the stored configuration.
    The message setting of the application is not part of it: what
    [edit_setting_for] writes is the effect [EditSetting]. *)
Record Store := {
  app_responses : list Response;
  config_apps : gmap string (list Response);
}.

(** What the outside world answers after the loop: whether
    [guild.get_channel] finds the channel of the application and whether
    [channel.send] succeeds (else [discord.HTTPException]). *)
Record SubmitEnv := {
  channel_found : bool;
  channel_sent : bool;
}.

(** What the handler does after the loop, in order; [K] is the type of the
    values of the keyword arguments handed to [edit_original_response]. *)
Inductive SubmitEffect (K : Type) :=
| ChannelSend (description : string) (fields : list (string * string))
| CreateThread (name : string)
| EditSetting (name object value : string)
| EditOriginalResponse (kwargs : gmap string K)
| Direct (content : string)
| Followup (content : string) (ephemeral : bool).
Arguments ChannelSend {K} description fields.
Arguments CreateThread {K} name.
Arguments EditSetting {K} name object value.
Arguments EditOriginalResponse {K} kwargs.
Arguments Direct {K} content.
Arguments Followup {K} content ephemeral.

(** The description of the embed posted to the channel. *)
Definition response_description (app : Application) (user : Applicant)
    (response_id : string) (response : Response) : string :=
  "**Name**: " +:+ lower (app_name app)
  +:+ String newline ("**Description**: " +:+ app_description app
  +:+ String newline ("**User:** " +:+ mention user +:+ " [`@" +:+ global_name user
                      +:+ " (" +:+ pretty (r_user response) +:+ ")`]"
  +:+ String newline ("**Response ID**: " +:+ response_id))).

(** [for idx, answer in enumerate(response.answers[:25])]: one field per
    answer, name and value. *)
Definition response_fields (response : Response) : list (string * string) :=
  imap (λ idx answer,
          ("Question " +:+ pretty (idx + 1)%nat,
           "- **" +:+ a_question answer +:+ "**"
           +:+ String newline ("- " +:+ a_answer answer)))
       (take 25 (r_answers response)).

Definition settings_error : string :=
  "Something went wrong with the application settings, please contact an admin!".

Definition submitted (response_id : string) : string :=
  "Application successfully submitted!"
  +:+ String newline (String newline ("**Response ID**: `" +:+ response_id +:+ "`")).

(** The effects after the loop other than a follow-up. *)
Definition not_followup {K : Type} (e : SubmitEffect K) : Prop :=
  match e with
  | Followup _ _ => False
  | _ => True
  end.

Section Submit.

Context {K : Type}.

(** [self.manager.process_tagscript(message, seeds)]; of the seeds only
    the number of responses, [len(app.responses)], changes between calls. *)
Variable process_tagscript : string → nat → gmap string K.

Variable DEFAULT_SETTINGS_MESSAGE : string.

(** The handler from the building of the embed to its end; the keyword
    arguments are falsy when the mapping is empty. *)
Definition submit_response (app : Application) (user : Applicant)
    (response_id : string) (env : SubmitEnv) (response : Response) (store : Store)
  : list (SubmitEffect K) * Store :=
  let post := ChannelSend (response_description app user response_id response)
                (response_fields response) in
  if negb (channel_found env) then
    ([Direct settings_error; Followup settings_error true], store)
  else if negb (channel_sent env) then
    ([post; Direct settings_error; Followup settings_error true], store)
  else
    let posted :=
      post :: (if app_thread app then [CreateThread ("Response " +:+ response_id)] else []) in
    let app_responses := app_responses store ++ [response] in
    match config_apps store !! lower (app_name app) with
    | None =>
        (posted
         ++ [Direct "Something went wrong, the application doesn't seem to exist anymore!";
             Followup "Failed because the application doesn't seem to exist anymore!" true],
         {| app_responses := app_responses; config_apps := config_apps store |})
    | Some stored =>
        let config :=
          <[lower (app_name app) := stored ++ [response]]> (config_apps store) in
        let kwargs := process_tagscript (app_message app) (length app_responses) in
        let '(reset, kwargs) :=
          if Nat.eqb (size kwargs) 0 then
            ([EditSetting (lower (app_name app)) "message" DEFAULT_SETTINGS_MESSAGE],
             process_tagscript DEFAULT_SETTINGS_MESSAGE (length app_responses))
          else ([], kwargs) in
        (posted ++ reset
         ++ [EditOriginalResponse kwargs; Direct (submitted response_id);
             Followup (submitted response_id) true],
         {| app_responses := app_responses; config_apps := config |})
    end.

(** What the applicant sees of it: the direct messages and the follow-up. *)
Definition applicant_view (e : SubmitEffect K) : option Effect :=
  match e with
  | Direct content => Some (UserSend content)
  | Followup content ephemeral => Some (FollowupSend content ephemeral)
  | _ => None
  end.

(** The end of the handler as [on_application_applied] takes it: the
    handler returns, and the trace goes on with what the applicant sees. *)
Definition submit (app : Application) (user : Applicant) (response_id : string)
    (env : SubmitEnv) (store : Store) (st : State) : Outcome :=
  Returns
    (log (omap applicant_view
            (submit_response app user response_id env (response st) store).1) st).

End Submit.

End Submission.

(** ** applications/pipes/listeners.py: the handler with its embeds *)

Module Handler.
Import Applications Submission.

Section Rounds.

Variable box : string → string.

(** [discord.Color.from_str(app.settings.color)], with which the embed of
    every round is built, outside any [try]: it returns the colour or
    raises (a [ValueError] for a string that is no colour). *)
Variable color : pyresult unit.

(** [for idx, question in enumerate(app.questions)], from index [idx]: each
    round builds its embed, then asks the question. *)
Fixpoint ask_questions (idx : nat) (questions : list Question)
    (envs : nat → QuestionEnv) (st : State) : Outcome :=
  match questions with
  | [] => Completed st
  | question :: rest =>
      match color with
      | Raised e => Raises e st
      | Returned _ =>
          match ask_question idx question (envs idx) with
          | (Continue, effects) => ask_questions (S idx) rest envs (log effects st)
          | (Return, effects) => Returns (log effects st)
          | (Raise e, effects) => Raises e (log effects st)
          | (Answered content, effects) =>
              let answer := {| a_question := q_text question;
                               a_type := lower (q_type question);
                               a_answer := content |} in
              let st := append_answer answer (log effects st) in
              let st := log [UserSend (answer_echo box idx content)] st in
              if answer_sent (envs idx) then ask_questions (S idx) rest envs st
              else
                Returns
                  (log [FollowupSend
                          "Something went wrong, I failed to send you a dm, please check your dm settings!"
                          true] st)
          end
      end
  end.

(** The part of the handler after the loop. *)
Variable submit : State → Outcome.

Definition on_application_applied (user : Z) (questions : list Question)
    (original : Delivery) (envs : nat → QuestionEnv) : Outcome :=
  let st := fresh_state user in
  if negb (list_truthy questions) then
    Returns (log [FollowupSend "There are no questions configured for this application!" true] st)
  else
    let dm := opening_message questions in
    match original with
    | Forbidden =>
        Returns (log [dm; FollowupSend "I failed to send you a dm, please check your dm settings." true] st)
    | Failed =>
        Returns (log [dm; FollowupSend "Something went wrong, please try again later!" true] st)
    | Delivered =>
        match ask_questions 0 questions envs (log [dm] st) with
        | Completed st' => submit st'
        | ended => ended
        end
    end.

End Rounds.

End Handler.

(** ** tags/mixins/commands.py: the other commands *)

Module TagCommands.
Import TagScript Tags.

(** [c.isupper()], [c.islower()] and [c.upper()] on the ASCII letters. *)
Definition is_upper_char (c : ascii) : bool :=
  let n := nat_of_ascii c in (Nat.leb 65 n && Nat.leb n 90)%bool.

Definition is_lower_char (c : ascii) : bool :=
  let n := nat_of_ascii c in (Nat.leb 97 n && Nat.leb n 122)%bool.

Definition upper_char (c : ascii) : ascii :=
  if is_lower_char c then ascii_of_nat (nat_of_ascii c - 32) else c.

(** [s.istitle()]: upper-case letters only after uncased characters,
    lower-case letters only after cased ones, and at least one letter. *)
Fixpoint istitle_from (previous_is_cased cased : bool) (s : string) : bool :=
  match s with
  | "" => cased
  | String c s' =>
      if is_upper_char c then
        if previous_is_cased then false else istitle_from true true s'
      else if is_lower_char c then
        if previous_is_cased then istitle_from true true s' else false
      else istitle_from false cased s'
  end.

Definition istitle (s : string) : bool := istitle_from false false s.

(** [s.title()]: a letter after an uncased character in upper case, a
    letter after a cased character in lower case. *)
Fixpoint title_from (previous_is_cased : bool) (s : string) : string :=
  match s with
  | "" => ""
  | String c s' =>
      String (if previous_is_cased then lower_char c else upper_char c)
             (title_from (is_upper_char c || is_lower_char c) s')
  end.

Definition title (s : string) : string := title_from false s.

(** A match of [TAG_RE], the pattern [(?i)(\[p\])?\btag'?s?\b]: group 1 is
    the prefix "[p]" when it is there, group 0 the whole match. *)
Record Match := {
  group1 : option string;
  group0 : string;
}.

(** The words the part [tag'?s?] of the pattern matches, in lower case. *)
Definition tag_words : list string := ["tag"; "tags"; "tag'"; "tag's"].

Definition _sub (m : Match) : string :=
  if str_truthy (group1 m) then "[p]tag global"
  else
    let repl := "global " in
    let name := group0 m in
    let repl := repl +:+ name in
    if istitle name then title repl else repl.

(** [TagFeedbackError(message)], from the errors of the cog. *)
Definition TagFeedbackError (message : string) : exn :=
  Exn (OtherClass "TagFeedbackError") message.

(** [validate_tag_count]: [guild] is [None] for the global tags and else
    carries the limit configured for the guild; [tag_count] is
    [len(self.get_unique_tags(guild))]. *)
Definition validate_tag_count (global_max_limit : Z) (guild : option Z)
    (tag_count : Z) : pyresult unit :=
  match guild with
  | Some guild_max_limit =>
      if guild_max_limit <=? tag_count then
        Raised (TagFeedbackError
                  ("This server has reached the limit of **"
                   +:+ pretty guild_max_limit +:+ "** tags."))
      else Returned ()
  | None =>
      if global_max_limit <=? tag_count then
        Raised (TagFeedbackError
                  ("You have reached the limit of **"
                   +:+ pretty global_max_limit +:+ "** global tags."))
      else Returned ()
  end.

(** A tag that is already registered, as [create_tag] uses it: its
    [name_prefix] and the message [edit_tagscript] answers with. *)
Record StoredTag := {
  name_prefix : string;
  edit_tagscript : string → string;
}.

Inductive CreateEffect :=
| AskConfirmation (message cancel_message : string)
| EditTagscript (tagscript : string)
| NewTag (global_tag : bool) (tag_name tagscript : string)
| Reply (content : string).

(** [create_tag]; [get_tag global_tag tag_name] is the look-up of the tag
    among the global tags or those of the guild, [confirmed] the answer to
    the confirmation, [initialize] the message of [tag.initialize()]. *)
Definition create_tag (global_max_limit guild_max_limit tag_count : Z)
    (get_tag : bool → string → option StoredTag) (confirmed : bool)
    (initialize : string) (tag_name tagscript : string) (global_tag : bool)
  : pyresult (list CreateEffect) :=
  let guild := if global_tag then None else Some guild_max_limit in
  let tag := get_tag global_tag tag_name in
  _ ← validate_tag_count global_max_limit guild tag_count;
  match tag with
  | Some tag =>
      let tag_prefix := name_prefix tag in
      let msg := "`" +:+ tag_name +:+ "` is already a registered " +:+ lower tag_prefix
                 +:+ ". Would you like to overwrite it?" in
      let ask := AskConfirmation msg (tag_prefix +:+ " edit cancelled.") in
      if negb confirmed then Returned [ask]
      else Returned [ask; EditTagscript tagscript; Reply (edit_tagscript tag tagscript)]
  | None =>
      Returned [NewTag global_tag tag_name tagscript; Reply initialize]
  end.

(** [create_tag] with what it did before it ended: the effects so far, and
    whether it returned or raised. *)
Definition create_tag_run (global_max_limit guild_max_limit tag_count : Z)
    (get_tag : bool → string → option StoredTag) (confirmed : bool)
    (initialize : string) (tag_name tagscript : string) (global_tag : bool)
  : list CreateEffect * pyresult unit :=
  let guild := if global_tag then None else Some guild_max_limit in
  let tag := get_tag global_tag tag_name in
  match validate_tag_count global_max_limit guild tag_count with
  | Raised e => ([], Raised e)
  | Returned _ =>
      match tag with
      | Some tag =>
          let tag_prefix := name_prefix tag in
          let msg := "`" +:+ tag_name +:+ "` is already a registered " +:+ lower tag_prefix
                     +:+ ". Would you like to overwrite it?" in
          let ask := AskConfirmation msg (tag_prefix +:+ " edit cancelled.") in
          if negb confirmed then ([ask], Returned ())
          else ([ask; EditTagscript tagscript; Reply (edit_tagscript tag tagscript)],
                Returned ())
      | None =>
          ([NewTag global_tag tag_name tagscript; Reply initialize], Returned ())
      end
  end.

(** The embed of one page of a listing. *)
Record ListEmbed := {
  le_author : string;
  le_icon_url : option string;
  le_description : string;
  le_footer : string;
}.

(** [d[key]] *)
Definition dict_getitem {V} (d : gmap string V) (key : string) : pyresult V :=
  match d !! key with
  | Some v => Returned v
  | None => Raised (Exn (OtherClass "KeyError") key)
  end.

(** [show_tag_list]: the embeds handed to [menu]; [pagify] is the one of
    [redbot.core.utils.chat_formatting]. *)
Definition show_tag_list (pagify : string → list string)
    (data : gmap string (list string)) (name : string) (icon_url : option string)
  : pyresult (list ListEmbed) :=
  aliases ← dict_getitem data "aliases";
  description ← dict_getitem data "description";
  let pages := pagify (Applications.join_lines description) in
  let footer := pretty (length description) +:+ " tags | "
                +:+ pretty (length aliases) +:+ " aliases" in
  mret (imap (λ index page,
                {| le_author := name; le_icon_url := icon_url;
                   le_description := page;
                   le_footer := pretty (index + 1)%nat +:+ "/" +:+ pretty (length pages)
                                +:+ " | " +:+ footer |})
             pages).

(** What a listing command answers with. *)
Inductive ListReply :=
| Notice (content : string)
| Menu (embeds : list ListEmbed).

Section Listings.

Variable tag_str : Tag → string.
Variable escape_markdown : string → string.
Variable pagify : string → list string.

(** [tag_list]; [tags] is [self.get_unique_tags(ctx.guild)]. *)
Definition tag_list (tags : list Tag) (icon_url : option string) : pyresult ListReply :=
  if negb (list_truthy tags) then
    Returned (Notice "There are no stored tags on this server.")
  else
    let data := generate_tag_list tag_str escape_markdown tags in
    Menu <$> show_tag_list pagify data "Stored Tags" icon_url.

(** [tag_search]; [tags] is [self.search_tag(keyword, guild=ctx.guild)]. *)
Definition tag_search (keyword : string) (tags : list Tag) (icon_url : option string)
  : pyresult ListReply :=
  if negb (list_truthy tags) then
    Returned (Notice ("There are no close matches for '" +:+ keyword +:+ "'."))
  else
    let data := generate_tag_list tag_str escape_markdown tags in
    Menu <$> show_tag_list pagify data "Search Results" icon_url.

(** [tag_global_list]; [tags] is [self.get_unique_tags()]. *)
Definition tag_global_list (tags : list Tag) (avatar_url : string) : pyresult ListReply :=
  if negb (list_truthy tags) then Returned (Notice "There are no global tags.")
  else
    let data := generate_tag_list tag_str escape_markdown tags in
    Menu <$> show_tag_list pagify data "Global Tags" (Some avatar_url).

(** [tag_global_search]; [tags] is [self.search_tag(keyword)]. *)
Definition tag_global_search (keyword : string) (tags : list Tag) (avatar_url : string)
  : pyresult ListReply :=
  if negb (list_truthy tags) then
    Returned (Notice ("There are no close matches for '" +:+ keyword +:+ "'."))
  else
    let data := generate_tag_list tag_str escape_markdown tags in
    Menu <$> show_tag_list pagify data "Search Results" (Some avatar_url).

End Listings.

Definition DOCS_URL : string := "https://cogs.melonbot.io/tags/".

(** [c.lower()] and [s.lower()] on all characters of the model, U+0000 to
    U+00FF: the letters A to Z and the accented capitals U+00C0 to U+00DE
    other than the multiplication sign U+00D7 move up by 32. *)
Definition str_lower_char (c : ascii) : ascii :=
  let n := nat_of_ascii c in
  if ((Nat.leb 65 n && Nat.leb n 90)
      || (Nat.leb 192 n && Nat.leb n 214)
      || (Nat.leb 216 n && Nat.leb n 222))%bool
  then ascii_of_nat (n + 32) else c.

Fixpoint str_lower (s : string) : string :=
  match s with
  | "" => ""
  | String c s' => String (str_lower_char c) (str_lower s')
  end.

(** The embed [tag_docs] sends, besides the fixed title, url and colour. *)
Record DocsEmbed := {
  docs_description : string;
  docs_footer : option string;
}.

(** [BLOCKS[key]] on the items of the dictionary (its keys are distinct). *)
Fixpoint blocks_get (BLOCKS : list (string * string)) (key : string) : option string :=
  match BLOCKS with
  | [] => None
  | (name, url) :: rest => if String.eqb name key then Some url else blocks_get rest key
  end.

(** [tag_docs]; [BLOCKS] are the items of the table of the documentation
    of the cog, in order. *)
Definition tag_docs (BLOCKS : list (string * string)) (keyword : option string)
    (exp : bool) : DocsEmbed :=
  if negb (str_truthy keyword) then
    {| docs_description := "- Here's the [`Tags Documentation`](" +:+ DOCS_URL
                           +:+ "), browse as you prefer.";
       docs_footer := None |}
  else
    let keyword := default "" keyword in
    if exp then
      {| docs_description := "Searched for [`" +:+ keyword
                             +:+ "`](https://cogs.melonbot.io/find?q=" +:+ keyword +:+ ")!";
         docs_footer :=
           Some "This method is experimental and may not show the right documentation." |}
    else
      match blocks_get BLOCKS (str_lower keyword) with
      | None =>
          {| docs_description :=
               "Could not find a block with that name `" +:+ str_lower keyword +:+ "`"
               +:+ String newline (String newline ("**Available Blocks**"
               +:+ String newline
                     (Applications.join_lines
                        ((λ '(name, url), "- [" +:+ name +:+ "](" +:+ url +:+ ")")
                           <$> BLOCKS))));
             docs_footer := None |}
      | Some block =>
          {| docs_description := "Searched for -" +:+ String newline ("- [`" +:+ str_lower keyword
                                 +:+ " block`](" +:+ block +:+ ")");
             docs_footer := None |}
      end.

(** A file built by [text_to_file]. *)
Record File := {
  file_name : string;
  file_text : string;
}.

Inductive BackupEffect :=
| BackupTick
| SendFiles (files : list File).

Section Backup.

(** [orjson.dumps(data, option=orjson.OPT_INDENT_2).decode("UTF-8")] *)
Context {J : Type} (dumps : J → string).

(** [tag_backup]; [guild_data] is [self.config.guild(ctx.guild).all()]. *)
Definition tag_backup (guild_id : Z) (guild_data : J) : list BackupEffect :=
  let file := {| file_name := "tag-backup-" +:+ pretty guild_id +:+ ".json";
                 file_text := dumps guild_data |} in
  [BackupTick; SendFiles [file]].

(** [tag_global_backup]; [global_data] is [self.config.all()]. *)
Definition tag_global_backup (global_data : J) : list BackupEffect :=
  let file := {| file_name := "global-tag-backup.json";
                 file_text := dumps global_data |} in
  [BackupTick; SendFiles [file]].

End Backup.

(** The attachments of the message a backup command sent: every file under
    its name, read back as its text. *)
Definition sent_attachments (effects : list BackupEffect) : list Attachment :=
  flat_map (λ e, match e with
                 | SendFiles files =>
                     (λ f, {| filename := file_name f; read := Returned (file_text f) |})
                       <$> files
                 | BackupTick => []
                 end) effects.

End TagCommands.

(** * Properties *)

(** ** Strings *)

Lemma str_app_cons (c : ascii) (s t : string) :
  String c s +:+ t = String c (s +:+ t).
Proof. reflexivity. Qed.

Lemma str_app_nil_r (s : string) : s +:+ "" = s.
Proof. induction s as [|c s IH]; [reflexivity|]. by rewrite str_app_cons, IH. Qed.

Lemma str_app_assoc (s t u : string) : (s +:+ t) +:+ u = s +:+ (t +:+ u).
Proof.
  induction s as [|c s IH]; [reflexivity|]. by rewrite !str_app_cons, IH.
Qed.

Lemma str_app_snoc (s : string) (c : ascii) (t : string) :
  (s +:+ String c "") +:+ t = s +:+ String c t.
Proof. by rewrite str_app_assoc. Qed.

Lemma str_take_length (n : nat) (s : string) :
  String.length (str_take n s) = Nat.min n (String.length s).
Proof.
  revert s. induction n as [|n IH]; intros [|c s]; cbn; try reflexivity.
  by rewrite IH.
Qed.

(** [s[:n]] is a prefix of [s]. *)
Lemma str_take_prefix (n : nat) (s : string) : ∃ rest, s = str_take n s +:+ rest.
Proof.
  revert s. induction n as [|n IH]; intros s.
  - by exists s.
  - destruct s as [|c s]; [by exists ""|].
    destruct (IH s) as [rest Hrest]. exists rest. cbn [str_take].
    by rewrite str_app_cons, <- Hrest.
Qed.

Lemma str_truthy_Some (s : string) : str_truthy (Some s) = true ↔ s ≠ "".
Proof. destruct s; cbn; split; congruence. Qed.

(** ** The engine on literal text *)

Section EngineFacts.
Import TagScript.

(** Without a start marker the scanner only extends the pending literal. *)
Lemma scan_literal (s lit : string) :
  str_contains block_start s = false →
  scan s lit None = flush (lit +:+ s).
Proof.
  revert lit. induction s as [|c s IH]; intros lit Hs.
  - by rewrite str_app_nil_r.
  - cbn in Hs. apply orb_false_iff in Hs as [Hc Hs].
    rewrite <- str_app_snoc, <- IH by done. cbn [scan]. by rewrite Hc.
Qed.

Lemma eval_nodes_flush blocks resolve (lit : string) (ctx : Context) :
  eval_nodes blocks resolve (flush lit) ctx = (lit, ctx).
Proof.
  destruct lit as [|c lit]; [reflexivity|].
  cbn. by rewrite str_app_nil_r.
Qed.

Lemma solve_literal blocks depth (s : string) (ctx : Context) :
  str_contains block_start s = false →
  solve blocks depth s ctx = (s, ctx).
Proof.
  intros Hs. destruct depth; cbn; unfold build_node_tree;
    rewrite (scan_literal s "" Hs); apply eval_nodes_flush.
Qed.

Lemma process_literal (self : Interpreter) (s : string)
    (seed_variables : gmap string Adapter) :
  str_contains block_start s = false →
  process self s seed_variables
  = Returned {| body := Some s; actions := ∅; variables := ∅ |}.
Proof. intros Hs. unfold process. by rewrite solve_literal. Qed.

End EngineFacts.

(** The engine on the templates of the cog and on malformed ones. *)

Example process_boosted :
  TagScript.body <$> TagScript.process (BoostUtils.engine 3)
    "{member(mention)} just boosted the server."
    {[ "member" := TagScript.StringAdapter "@Rin" ]}
  = Returned (Some "@Rin just boosted the server.").
Proof. vm_compute. reflexivity. Qed.

Example process_unterminated :
  TagScript.body <$> TagScript.process (BoostUtils.engine 3) "abc {unterminated" ∅
  = Returned (Some "abc {unterminated").
Proof. vm_compute. reflexivity. Qed.

Example process_unknown_name :
  TagScript.body <$> TagScript.process (BoostUtils.engine 3) "a {nope(1):2} b" ∅
  = Returned (Some "a {nope(1):2} b").
Proof. vm_compute. reflexivity. Qed.

Example process_nested :
  (λ r, (TagScript.body r, TagScript.actions r !! "embed"))
    <$> TagScript.process (BoostUtils.engine 3)
          "{embed(title):{assign(x):Hello} {x}}{embed(Title):{x}!}" ∅
  = Returned (Some "", Some (TagScript.EmbedAction {[ "title" := "Hello!" ]})).
Proof. vm_compute. reflexivity. Qed.

Example process_beyond_depth :
  TagScript.body <$> TagScript.process (BoostUtils.engine 1)
    "{assign(x):{assign(y):deep}}{x}|{y}" ∅
  = Returned (Some "{assign(y):deep}|{y}").
Proof. vm_compute. reflexivity. Qed.

(** ** boostutils: [process_tagscript] *)

Section ProcessTagscript.
Import TagScript BoostUtils.

Variable depth_limit : nat.

(** The two keys of the result, read off the engine's response. *)
Lemma process_tagscript_keys (content : string)
    (seed_variables : gmap string Adapter) (output : Response) :
  process (engine depth_limit) content seed_variables = Returned output →
  ∃ kwargs,
    process_tagscript depth_limit content seed_variables = Returned kwargs
    ∧ kwargs !! "content"
      = (if str_truthy (body output)
         then Some (AnyStr (str_take 2000 (default "" (body output))))
         else None)
    ∧ kwargs !! "embed"
      = (match actions output !! "embed" with
         | Some embed => if action_truthy embed then Some (AnyAction embed) else None
         | None => None
         end)
    ∧ dom kwargs ⊆ {[ "content"; "embed" ]}.
Proof.
  intros Hout. unfold process_tagscript. rewrite Hout.
  eexists. split; [reflexivity|].
  destruct (str_truthy (body output));
    destruct (actions output !! "embed") as [embed|];
    try destruct (action_truthy embed);
    repeat split; try reflexivity;
    rewrite ?dom_insert, ?dom_empty; intros k; rewrite !elem_of_union, !elem_of_singleton;
    rewrite ?elem_of_empty; tauto.
Qed.

End ProcessTagscript.

(** C2: when the processed output has a non-empty body [b],
    [process_tagscript] stores exactly [b[:2000]] under "content" and
    [tag_run] hands the same [b[:2000]] on; the slice is a prefix of [b] of
    at most 2000 characters.  The engine itself does not cut the body: a
    literal template of any length comes back whole. *)
Theorem body_truncated_by_caller (depth_limit : nat) (content : string)
    (seed_variables : gmap string TagScript.Adapter)
    (output : TagScript.Response) (b : string) :
  TagScript.process (BoostUtils.engine depth_limit) content seed_variables
  = Returned output →
  TagScript.body output = Some b →
  b ≠ "" →
  (∃ kwargs,
      BoostUtils.process_tagscript depth_limit content seed_variables = Returned kwargs
      ∧ kwargs !! "content" = Some (BoostUtils.AnyStr (str_take 2000 b)))
  ∧ (∀ engine_process seed tagscript,
        engine_process tagscript seed = Returned output →
        Tags.tag_run engine_process seed tagscript
        = Returned (TagScript.actions output, Some (str_take 2000 b)))
  ∧ String.length (str_take 2000 b) = Nat.min 2000 (String.length b)
  ∧ (∃ rest, b = str_take 2000 b +:+ rest)
  ∧ (∀ s, str_contains TagScript.block_start s = false →
          ∃ out, TagScript.process (BoostUtils.engine depth_limit) s ∅ = Returned out
                 ∧ TagScript.body out = Some s).
Proof.
  intros Hout Hbody Hb.
  assert (Htruthy : str_truthy (TagScript.body output) = true).
  { rewrite Hbody. by apply str_truthy_Some. }
  repeat split.
  - destruct (process_tagscript_keys depth_limit _ _ _ Hout) as (kwargs & Hk & Hc & _).
    exists kwargs. split; [done|]. by rewrite Hc, Htruthy, Hbody.
  - intros engine_process seed tagscript Hrun. unfold Tags.tag_run.
    rewrite Hrun. cbn. by rewrite Htruthy, Hbody.
  - apply str_take_length.
  - apply str_take_prefix.
  - intros s Hs. eexists. split; [by apply process_literal|done].
Qed.

Lemma body_truncated_by_caller_witness :
  (∃ kwargs,
      BoostUtils.process_tagscript 2 "{member(mention)} just boosted the server."
        {[ "member" := TagScript.StringAdapter "@Rin" ]} = Returned kwargs
      ∧ kwargs !! "content"
        = Some (BoostUtils.AnyStr (str_take 2000 "@Rin just boosted the server.")))
  ∧ (∀ engine_process seed tagscript,
        engine_process tagscript seed
        = Returned {| TagScript.body := Some "@Rin just boosted the server.";
                      TagScript.actions := ∅;
                      TagScript.variables :=
                        {[ "member" := TagScript.StringAdapter "@Rin" ]} |} →
        Tags.tag_run engine_process seed tagscript
        = Returned (∅, Some (str_take 2000 "@Rin just boosted the server.")))
  ∧ String.length (str_take 2000 "@Rin just boosted the server.")
    = Nat.min 2000 (String.length "@Rin just boosted the server.")
  ∧ (∃ rest, "@Rin just boosted the server."
             = str_take 2000 "@Rin just boosted the server." +:+ rest)
  ∧ (∀ s, str_contains TagScript.block_start s = false →
          ∃ out, TagScript.process (BoostUtils.engine 2) s ∅ = Returned out
                 ∧ TagScript.body out = Some s).
Proof.
  apply (body_truncated_by_caller 2 "{member(mention)} just boosted the server."
           {[ "member" := TagScript.StringAdapter "@Rin" ]}
           {| TagScript.body := Some "@Rin just boosted the server.";
              TagScript.actions := ∅;
              TagScript.variables := {[ "member" := TagScript.StringAdapter "@Rin" ]} |}
           "@Rin just boosted the server.").
  - vm_compute. reflexivity.
  - reflexivity.
  - discriminate.
Defined.

(** A literal body of 2500 characters leaves the engine whole and is cut
    to 2000 by [process_tagscript]. *)
Example process_tagscript_cuts_long_body :
  (TagScript.body <$> TagScript.process (BoostUtils.engine 0)
                        (string_of_list_ascii (replicate 2500 "a"%char)) ∅
   = Returned (Some (string_of_list_ascii (replicate 2500 "a"%char))))
  ∧ BoostUtils.process_tagscript 0 (string_of_list_ascii (replicate 2500 "a"%char)) ∅
    = Returned {[ "content" :=
                    BoostUtils.AnyStr (string_of_list_ascii (replicate 2000 "a"%char)) ]}.
Proof. split; vm_compute; reflexivity. Qed.

(** C3: when processing yields a falsy body and no "embed" action,
    [process_tagscript] returns the empty mapping: it returns normally and
    neither "content" nor "embed" is a key. *)
Theorem empty_result_is_valid (depth_limit : nat) (content : string)
    (seed_variables : gmap string TagScript.Adapter) (output : TagScript.Response) :
  TagScript.process (BoostUtils.engine depth_limit) content seed_variables
  = Returned output →
  str_truthy (TagScript.body output) = false →
  TagScript.actions output !! "embed" = None →
  BoostUtils.process_tagscript depth_limit content seed_variables = Returned ∅
  ∧ (∅ : gmap string BoostUtils.Any) !! "content" = None
  ∧ (∅ : gmap string BoostUtils.Any) !! "embed" = None.
Proof.
  intros Hout Hbody Hembed. split; [|done].
  unfold BoostUtils.process_tagscript. rewrite Hout. cbn.
  by rewrite Hbody, Hembed.
Qed.

Lemma empty_result_is_valid_witness :
  BoostUtils.process_tagscript 2 "{assign(who):nobody}{command:ping}" ∅ = Returned ∅
  ∧ (∅ : gmap string BoostUtils.Any) !! "content" = None
  ∧ (∅ : gmap string BoostUtils.Any) !! "embed" = None.
Proof.
  apply (empty_result_is_valid 2 "{assign(who):nobody}{command:ping}" ∅
           {| TagScript.body := Some "";
              TagScript.actions := {[ "command" := TagScript.CommandAction "ping" ]};
              TagScript.variables := ∅ |}).
  - vm_compute. reflexivity.
  - reflexivity.
  - reflexivity.
Defined.

(** C6: a template without a start marker, processed with no seed
    variables, comes back as the body of the response, unchanged. *)
Theorem literal_passthrough (depth_limit : nat) (s : string) :
  str_contains TagScript.block_start s = false →
  ∃ output,
    TagScript.process (BoostUtils.engine depth_limit) s ∅ = Returned output
    ∧ TagScript.body output = Some s.
Proof.
  intros Hs. eexists. split; [by apply process_literal|done].
Qed.

Lemma literal_passthrough_witness :
  ∃ output,
    TagScript.process (BoostUtils.engine 0) "  just boosted } the server.  " ∅
    = Returned output
    ∧ TagScript.body output = Some "  just boosted } the server.  ".
Proof. apply (literal_passthrough 0 "  just boosted } the server.  "). reflexivity. Defined.

(** ** boostutils: validation *)

(** C4: the source length limit is 10000, and for every limit and length
    the message of [TagCharacterLimitReached(limit, length)] is
    "TagScript cannot be longer than <limit> (**<length>**)." with both
    numbers humanized; the error is a [TagError]. *)
Theorem limit_error_message (humanize_number : Z → string) (limit length : Z) :
  BoostUtils.TAGSCRIPT_LIMIT = 10000
  ∧ exn_str (BoostUtils.TagCharacterLimitReached humanize_number limit length)
    = "TagScript cannot be longer than " +:+ humanize_number limit
      +:+ " (**" +:+ humanize_number length +:+ "**)."
  ∧ is_TagError (BoostUtils.TagCharacterLimitReached humanize_number limit length) = true.
Proof. repeat split. Qed.

(** With decimal digits for [humanize_number], the error of a template of
    10001 characters against the limit. *)
Example limit_error_message_10001 :
  exn_str (BoostUtils.TagCharacterLimitReached pretty BoostUtils.TAGSCRIPT_LIMIT 10001)
  = "TagScript cannot be longer than 10000 (**10001**).".
Proof. vm_compute. reflexivity. Qed.

Lemma convert_returned (validate : string → pyresult bool) (argument : string) (r : bool) :
  validate argument = Returned r →
  BoostUtils.convert validate argument = Returned argument.
Proof. intros Hv. unfold BoostUtils.convert. by rewrite Hv. Qed.

Lemma convert_tag_error (validate : string → pyresult bool) (argument : string) (e : exn) :
  validate argument = Raised e →
  is_TagError e = true →
  BoostUtils.convert validate argument = Raised (Exn BadArgumentClass (exn_str e)).
Proof. intros Hv He. unfold BoostUtils.convert. by rewrite Hv, He. Qed.

Lemma convert_returns_argument (validate : string → pyresult bool) (argument r : string) :
  BoostUtils.convert validate argument = Returned r →
  r = argument ∧ ∃ v, validate argument = Returned v.
Proof.
  unfold BoostUtils.convert. destruct (validate argument) as [v|e] eqn:Hv.
  - intros [= <-]. eauto.
  - destruct (is_TagError e); discriminate.
Qed.

(** C5: [convert] consults only the validation: when it returns, the
    argument is returned unchanged; when it raises a [TagError], [convert]
    raises [BadArgument] with the string of that error; and [convert]
    returns nothing but the argument, and only after the validation
    passed.  With the length validation of the cog these are the only two
    outcomes: the argument itself up to 10000 characters, [BadArgument]
    with the limit message beyond. *)
Theorem convert_validates (validate : string → pyresult bool)
    (humanize_number : Z → string) (argument : string) :
  (∀ r, validate argument = Returned r →
        BoostUtils.convert validate argument = Returned argument)
  ∧ (∀ e, validate argument = Raised e → is_TagError e = true →
          BoostUtils.convert validate argument
          = Raised (Exn BadArgumentClass (exn_str e)))
  ∧ (∀ r, BoostUtils.convert validate argument = Returned r →
          r = argument ∧ ∃ v, validate argument = Returned v)
  ∧ ((len argument ≤ BoostUtils.TAGSCRIPT_LIMIT
      ∧ BoostUtils.convert (BoostUtils.validate_tagscript humanize_number) argument
        = Returned argument)
     ∨ (BoostUtils.TAGSCRIPT_LIMIT < len argument
        ∧ BoostUtils.convert (BoostUtils.validate_tagscript humanize_number) argument
          = Raised (Exn BadArgumentClass
                      ("TagScript cannot be longer than "
                       +:+ humanize_number BoostUtils.TAGSCRIPT_LIMIT
                       +:+ " (**" +:+ humanize_number (len argument) +:+ "**).")))).
Proof.
  split; [intros r; apply convert_returned|].
  split; [intros e; apply convert_tag_error|].
  split; [intros r; apply convert_returns_argument|].
  unfold BoostUtils.convert, BoostUtils.validate_tagscript.
  destruct (Z.ltb_spec BoostUtils.TAGSCRIPT_LIMIT (len argument)); [right|left]; done.
Qed.

Example convert_short : BoostUtils.convert (BoostUtils.validate_tagscript pretty)
                          "{member(mention)} just boosted the server."
                        = Returned "{member(mention)} just boosted the server.".
Proof. reflexivity. Qed.

Example convert_too_long :
  BoostUtils.convert (BoostUtils.validate_tagscript pretty)
    (string_of_list_ascii (replicate (Z.to_nat 10001) "a"%char))
  = Raised (Exn BadArgumentClass "TagScript cannot be longer than 10000 (**10001**).").
Proof. vm_compute. reflexivity. Qed.

(** ** tags: the listing, [invoketag], the restore commands *)

Section TagList.
Import Tags.

Variable tag_str : Tag → string.
Variable escape_markdown : string → string.

Lemma len_gt_23 (s : string) :
  (23 <? len s) = if decide (23 < String.length s)%nat then true else false.
Proof.
  unfold len. destruct (decide _), (Z.ltb_spec 23 (Z.of_nat (String.length s))); lia.
Qed.

Lemma tag_list_step_spec (acc : list string * list string) (tag : Tag) :
  tag_list_step tag_str escape_markdown acc tag
  = (acc.1 ++ aliases tag, acc.2 ++ [tag_line tag_str escape_markdown tag]).
Proof.
  destruct acc as [al ds]. unfold tag_list_step, tag_line, tag_preview.
  rewrite len_gt_23. by destruct (decide _).
Qed.

(** The loop, started from any accumulators. *)
Lemma tag_list_fold (tags : list Tag) (acc : list string * list string) :
  fold_left (tag_list_step tag_str escape_markdown) tags acc
  = (acc.1 ++ concat (aliases <$> tags),
     acc.2 ++ (tag_line tag_str escape_markdown <$> tags)).
Proof.
  revert acc. induction tags as [|tag tags IH]; intros [al ds].
  - cbn. by rewrite !app_nil_r.
  - cbn [fold_left]. rewrite tag_list_step_spec, IH. cbn.
    by rewrite <- !app_assoc.
Qed.

End TagList.

(** The characters of the strings built by the helpers of the listing, as
    lists: [s[:n]] takes, [s.replace] maps. *)
Lemma chars_length (s : string) : length (list_ascii_of_string s) = String.length s.
Proof. induction s as [|c s IH]; [done|]. cbn. by rewrite IH. Qed.

Lemma chars_app (s t : string) :
  list_ascii_of_string (s +:+ t) = list_ascii_of_string s ++ list_ascii_of_string t.
Proof.
  induction s as [|c s IH]; [done|]. rewrite str_app_cons. cbn. by rewrite IH.
Qed.

(** [s[:n]] is the first [n] characters of [s]. *)
Lemma chars_take (n : nat) (s : string) :
  list_ascii_of_string (str_take n s) = take n (list_ascii_of_string s).
Proof.
  revert s. induction n as [|n IH]; intros [|c s]; cbn; try done. by rewrite IH.
Qed.

(** [s.replace("\n", " ")] turns every newline into a space and keeps the
    other characters. *)
Lemma chars_replace_newline (s : string) :
  list_ascii_of_string (replace_char newline " " s)
  = (λ c, if Ascii.eqb c newline then " "%char else c) <$> list_ascii_of_string s.
Proof.
  induction s as [|c s IH]; [done|]. cbn [replace_char list_ascii_of_string fmap list_fmap].
  destruct (Ascii.eqb c newline).
  - rewrite chars_app. cbn. by rewrite IH.
  - cbn. by rewrite IH.
Qed.

Lemma string_of_chars (s : string) (cs : list ascii) :
  list_ascii_of_string s = cs → s = string_of_list_ascii cs.
Proof. intros <-. by rewrite string_of_list_ascii_of_string. Qed.

(** The preview of the listing, character by character. *)
Lemma tag_preview_chars (script : string) :
  Tags.tag_preview script
  = string_of_list_ascii
      (let flat := (λ c, if Ascii.eqb c newline then " "%char else c)
                     <$> list_ascii_of_string script in
       if decide (23 < length flat)%nat
       then take 20 flat ++ ["."; "."; "."]%char
       else flat).
Proof.
  apply string_of_chars. unfold Tags.tag_preview. cbv zeta.
  rewrite <- chars_replace_newline, chars_length.
  destruct (decide _); [|done].
  by rewrite chars_app, chars_take.
Qed.

(** C10: every entry of the listing is "`<tag>` - " followed by the
    markdown-escaped preview.  The preview is spelled out on the characters
    of the tagscript: every newline becomes a space, and when that text is
    longer than 23 characters the preview is its first 20 characters
    followed by three dots, otherwise all of it.  The escaping is applied to
    the cut text.  The aliases are the aliases of all tags, concatenated in
    input order. *)
Theorem generate_tag_list_entries (tag_str : Tags.Tag → string)
    (escape_markdown : string → string) (tags : list Tags.Tag) :
  Tags.generate_tag_list tag_str escape_markdown tags
  = {[ "aliases" := concat (Tags.aliases <$> tags);
       "description" :=
         (λ tag,
            "`" +:+ tag_str tag +:+ "` - "
            +:+ escape_markdown
                  (string_of_list_ascii
                     (let flat := (λ c, if Ascii.eqb c newline then " "%char else c)
                                    <$> list_ascii_of_string (Tags.tagscript tag) in
                      if decide (23 < length flat)%nat
                      then take 20 flat ++ ["."; "."; "."]%char
                      else flat))) <$> tags ]}.
Proof.
  unfold Tags.generate_tag_list. rewrite tag_list_fold. cbn [fst snd app].
  do 2 f_equal. apply list_fmap_ext. intros _ tag _. unfold Tags.tag_line.
  by rewrite tag_preview_chars.
Qed.

Example generate_tag_list_two :
  Tags.generate_tag_list Tags.tag_name (λ s, s)
    [ {| Tags.tag_name := "rules"; Tags.aliases := ["r"; "law"];
         Tags.tagscript := "Be kind." +:+ String newline "No spam, no ads, no exceptions." |};
      {| Tags.tag_name := "hi"; Tags.aliases := ["hello"];
         Tags.tagscript := "12345678901234567890123" |} ]
  = {[ "aliases" := ["r"; "law"; "hello"];
       "description" := ["`rules` - Be kind. No spam, no...";
                         "`hi` - 12345678901234567890123"] ]}.
Proof. vm_compute. reflexivity. Qed.

(** C9: whatever [response] the caller passes, also [False], the flag is
    [True] after [response = response or True]; so when the lookup of the
    tag raises [BadArgument], the error is sent. *)
Theorem invoketag_always_responds (tag_convert : string → pyresult Tags.Tag)
    (response : option bool) (tag_name args : string) (e : exn) :
  tag_convert tag_name = Raised e →
  Tags.is_BadArgument e = true →
  Tags.py_or response (Some true) = Some true
  ∧ Tags.invoketag tag_convert response tag_name args
    = Returned [Tags.CtxSend (exn_str e)].
Proof.
  intros Hlookup He.
  assert (Hflag : Tags.py_or response (Some true) = Some true)
    by (by destruct response as [[]|]).
  split; [done|].
  unfold Tags.invoketag. by rewrite Hlookup, He, Hflag.
Qed.

Lemma invoketag_always_responds_witness :
  Tags.py_or (Some false) (Some true) = Some true
  ∧ Tags.invoketag (λ _, Raised (Exn BadArgumentClass "Tag not found."))
      (Some false) "donate" ""
    = Returned [Tags.CtxSend "Tag not found."].
Proof.
  apply (invoketag_always_responds
           (λ _, Raised (Exn BadArgumentClass "Tag not found."))
           (Some false) "donate" "" (Exn BadArgumentClass "Tag not found."));
    reflexivity.
Defined.

(** C8: for a message with at least one attachment the check of both
    restore commands evaluates to false whatever the expected file name,
    so [UserFeedbackCheckFailure] is not raised there and both commands go
    on to read and load the first attachment, whatever it is called. *)
Theorem restore_ignores_filename {J : Type} (loads : string → pyresult J)
    (guild_id : Z) (first : Tags.Attachment) (others : list Tags.Attachment) :
  (∀ expected, Tags.backup_check (first :: others) expected = Returned false)
  ∧ Tags.tag_restore loads guild_id (first :: others)
    = (raw ← Tags.read first; data ← loads raw;
       mret [Tags.ConfigSet data; Tags.Initialize; Tags.Tick;
             Tags.Send "Backup restored!"])
  ∧ Tags.tag_global_restore loads (first :: others)
    = (raw ← Tags.read first; data ← loads raw;
       mret [Tags.ConfigSet data; Tags.Initialize; Tags.Tick;
             Tags.Send "Backup restored!"]).
Proof. repeat split. Qed.

Example restore_of_a_picture :
  Tags.tag_restore (λ raw, Returned raw) 133049272517001216
    [ {| Tags.filename := "cat.png"; Tags.read := Returned "PNG" |} ]
  = Returned [Tags.ConfigSet "PNG"; Tags.Initialize; Tags.Tick;
              Tags.Send "Backup restored!"].
Proof. reflexivity. Qed.

(** Without any attachment the check itself fails on [attachments[0]]. *)
Example restore_without_attachment :
  Tags.tag_global_restore (λ raw, Returned raw) []
  = Raised (Exn IndexErrorClass "list index out of range").
Proof. reflexivity. Qed.

(** ** applications: the reply that never comes *)

Section ApplicationFlow.
Import Applications.

Variable box : string → string.

Lemma ask_text_timeout (idx : nat) (question : Question) (env : QuestionEnv) :
  view_sent env = true →
  reply env = None →
  ask_text idx question env = (Return, timed_out_effects idx question).
Proof. intros Hsent Hreply. unfold ask_text. by rewrite Hsent, Hreply. Qed.

(** Every wait of the text branch is a wait for a message, for 300 seconds. *)
Lemma ask_text_waits (idx : nat) (question : Question) (env : QuestionEnv)
    (event : string) (timeout : Z) :
  WaitFor event timeout ∈ (ask_text idx question env).2 →
  event = "message" ∧ timeout = 300.
Proof.
  unfold ask_text.
  destruct (view_sent env), (reply env) as [[|c content]|], (view_cancel env),
    (view_skip env); cbn;
    rewrite ?elem_of_cons, ?elem_of_nil; intros H;
    repeat (destruct H as [H|H]; try discriminate H; try (by inversion H)); done.
Qed.

(** The loop over a list of questions in two parts. *)
Lemma ask_questions_app (before rest : list Question) (idx : nat)
    (envs : nat → QuestionEnv) (st : State) :
  ask_questions box idx (before ++ rest) envs st
  = match ask_questions box idx before envs st with
    | Completed st' => ask_questions box (idx + length before) rest envs st'
    | ended => ended
    end.
Proof.
  revert idx st. induction before as [|question before IH]; intros idx st.
  - cbn. by rewrite Nat.add_0_r.
  - cbn [app ask_questions length].
    destruct (ask_question idx question (envs idx)) as [[content| | |e] effects];
      try reflexivity.
    + destruct (answer_sent (envs idx)); [|reflexivity].
      rewrite IH. by rewrite Nat.add_succ_comm.
    + rewrite IH. by rewrite Nat.add_succ_comm.
Qed.

Lemma ask_questions_timeout (idx : nat) (question : Question) (rest : list Question)
    (envs : nat → QuestionEnv) (st : State) :
  lower (q_type question) = "text" →
  view_sent (envs idx) = true →
  reply (envs idx) = None →
  ask_questions box idx (question :: rest) envs st
  = Returns (log (timed_out_effects idx question) st).
Proof.
  intros Htype Hsent Hreply. cbn [ask_questions]. unfold ask_question.
  rewrite Htype. cbn. by rewrite ask_text_timeout.
Qed.

End ApplicationFlow.

(** C7: in the branch of a text question the handler waits for the reply
    with a timeout of 300 seconds, and every wait of that branch is this
    one.  When the wait times out, after the questions before it were
    asked and left the state [st], the handler returns: its last action is
    the follow-up "Application timed out.", the response is the one of
    [st] (no answer was appended) and the questions after it are not
    asked. *)
Theorem text_reply_timeout (box : string → string)
    (submit : Applications.State → Applications.Outcome) (user : Z)
    (before : list Applications.Question) (question : Applications.Question)
    (rest : list Applications.Question) (envs : nat → Applications.QuestionEnv)
    (st : Applications.State) :
  lower (Applications.q_type question) = "text" →
  Applications.view_sent (envs (length before)) = true →
  Applications.reply (envs (length before)) = None →
  Applications.ask_questions box 0 before envs
    (Applications.log [Applications.opening_message (before ++ question :: rest)]
       (Applications.fresh_state user))
  = Applications.Completed st →
  Applications.TEXT_TIMEOUT = 300
  ∧ (∀ idx env event timeout,
        Applications.WaitFor event timeout ∈ (Applications.ask_text idx question env).2 →
        event = "message" ∧ timeout = 300)
  ∧ Applications.on_application_applied box submit user (before ++ question :: rest)
      Applications.Delivered envs
    = Applications.Returns
        {| Applications.response := Applications.response st;
           Applications.trace :=
             Applications.trace st
             ++ [Applications.UserSendView Applications.CancelView
                   (Applications.question_description (length before) question)
                   (Applications.q_required question);
                 Applications.WaitFor "message" 300;
                 Applications.ViewOnTimeout Applications.CancelView;
                 Applications.UserSend
                   "Application timed out while waiting for your response.";
                 Applications.FollowupSend "Application timed out." true] |}.
Proof.
  intros Htype Hsent Hreply Hbefore.
  split; [reflexivity|]. split; [intros idx env; apply ask_text_waits|].
  unfold Applications.on_application_applied.
  assert (Hne : list_truthy (before ++ question :: rest) = true) by (by destruct before).
  rewrite Hne. cbn [negb].
  rewrite ask_questions_app, Hbefore, Nat.add_0_l.
  by rewrite (ask_questions_timeout box _ question rest envs st Htype Hsent Hreply).
Qed.

Lemma text_reply_timeout_witness :
  Applications.on_application_applied (λ s, "```" +:+ s +:+ "```") Applications.Completed 7
    [Applications.age_question; Applications.reason_question; Applications.age_question]
    Applications.Delivered Applications.silent_after_first
  = Applications.Returns
      {| Applications.response :=
           {| Applications.r_user := 7;
              Applications.r_answers :=
                [ {| Applications.a_question := "Are you over 18?";
                     Applications.a_type := "boolean";
                     Applications.a_answer := "Yes" |} ] |};
         Applications.trace :=
           [Applications.opening_message
              [Applications.age_question; Applications.reason_question;
               Applications.age_question];
            Applications.UserSendView Applications.PatchedConfirmView
              (Applications.question_description 0 Applications.age_question) true;
            Applications.ViewWait Applications.PatchedConfirmView;
            Applications.UserSend
              (Applications.answer_echo (λ s, "```" +:+ s +:+ "```") 0 "Yes");
            Applications.UserSendView Applications.CancelView
              (Applications.question_description 1 Applications.reason_question) true;
            Applications.WaitFor "message" 300;
            Applications.ViewOnTimeout Applications.CancelView;
            Applications.UserSend "Application timed out while waiting for your response.";
            Applications.FollowupSend "Application timed out." true] |}.
Proof.
  apply (text_reply_timeout (λ s, "```" +:+ s +:+ "```") Applications.Completed 7
           [Applications.age_question] Applications.reason_question
           [Applications.age_question] Applications.silent_after_first
           {| Applications.response :=
                {| Applications.r_user := 7;
                   Applications.r_answers :=
                     [ {| Applications.a_question := "Are you over 18?";
                          Applications.a_type := "boolean";
                          Applications.a_answer := "Yes" |} ] |};
              Applications.trace :=
                [Applications.opening_message
                   [Applications.age_question; Applications.reason_question;
                    Applications.age_question];
                 Applications.UserSendView Applications.PatchedConfirmView
                   (Applications.question_description 0 Applications.age_question) true;
                 Applications.ViewWait Applications.PatchedConfirmView;
                 Applications.UserSend
                   (Applications.answer_echo (λ s, "```" +:+ s +:+ "```") 0 "Yes")] |});
    reflexivity.
Defined.

(** * Further properties *)

(** ** applications: how a question and the loop can end *)

Section QuestionFlow.
Import Applications Submission.

Ltac flow_cases env :=
  unfold ask_question, ask_text, ask_choices, ask_boolean;
  repeat case_bool_decide; cbn [andb orb negb];
  destruct (view_sent env), (reply env) as [[|? ?]|], (view_cancel env), (view_skip env),
    (choice_timed_out env), (choice_answer env) as [?|], (confirm_result env) as [[]|];
  cbn [negb app str_truthy].

(** A question that is left with [return] ends on its only follow-up. *)
Lemma ask_question_return (idx : nat) (question : Question) (env : QuestionEnv)
    (effects : list Effect) :
  ask_question idx question env = (Return, effects) →
  ∃ before content,
    effects = before ++ [FollowupSend content true]
    ∧ List.filter is_followup before = [].
Proof.
  flow_cases env; intros [= <-];
    repeat match goal with
           | |- ∃ before content, ?l = _ ∧ _ =>
               exists (removelast l); eexists; split; [reflexivity|reflexivity]
           end.
Qed.

(** A question that is answered or passed over sends no follow-up. *)
Lemma ask_question_goes_on (idx : nat) (question : Question) (env : QuestionEnv)
    (flow : Flow) (effects : list Effect) :
  ask_question idx question env = (flow, effects) →
  flow ≠ Return →
  List.filter is_followup effects = [].
Proof.
  flow_cases env; intros [= <- <-] Hflow; try reflexivity; by destruct Hflow.
Qed.

(** Only a question with buttons can raise, and only [HTTPException]. *)
Lemma ask_question_raise (idx : nat) (question : Question) (env : QuestionEnv)
    (e : exn) (effects : list Effect) :
  ask_question idx question env = (Raise e, effects) →
  e = HTTPException ∧ lower (q_type question) ≠ "text" ∧ view_sent env = false.
Proof.
  flow_cases env; intros [= <- <-]; repeat split; congruence.
Qed.

(** A question without a branch is passed over without a trace, and the
    others are never passed over. *)
Lemma ask_question_askable (idx : nat) (question : Question) (env : QuestionEnv) :
  if askable question
  then (ask_question idx question env).1 ≠ Continue
  else ask_question idx question env = (Continue, []).
Proof.
  unfold askable. flow_cases env; try reflexivity; discriminate.
Qed.

End QuestionFlow.

(** ** applications: what the loop leaves behind *)

Section LoopFacts.
Import Applications Submission.

Variable box : string → string.

Lemma askable_kind (question : Question) :
  askable question = true → lower (q_type question) ∈ answer_kinds.
Proof.
  unfold askable, answer_kinds. repeat case_bool_decide; cbn; try discriminate; intros _;
    match goal with H : lower _ = _ |- _ => rewrite H end; set_solver.
Qed.

(** What a run of the loop leaves behind, whatever its outcome. *)
Lemma ask_questions_invariant (questions : list Question) (idx : nat)
    (envs : nat → QuestionEnv) (st : State) :
  ∃ added new,
    trace (outcome_state (ask_questions box idx questions envs st)) = trace st ++ added
    ∧ r_answers (response (outcome_state (ask_questions box idx questions envs st)))
      = r_answers (response st) ++ new
    ∧ r_user (response (outcome_state (ask_questions box idx questions envs st)))
      = r_user (response st)
    ∧ (a_question <$> new) `prefix_of` (q_text <$> List.filter askable questions)
    ∧ Forall (λ a, a_type a ∈ answer_kinds) new
    ∧ match ask_questions box idx questions envs st with
      | Completed _ =>
          a_question <$> new = q_text <$> List.filter askable questions
          ∧ List.filter is_followup added = []
      | Returns _ =>
          ∃ before content,
            added = before ++ [FollowupSend content true]
            ∧ List.filter is_followup before = []
      | Raises e _ => e = HTTPException ∧ List.filter is_followup added = []
      end.
Proof.
  revert idx st. induction questions as [|question questions IH]; intros idx st.
  - exists [], []. cbn. rewrite !app_nil_r. repeat split; done.
  - cbn [ask_questions List.filter].
    pose proof (ask_question_askable idx question (envs idx)) as Hask.
    pose proof (askable_kind question) as Hkind.
    destruct (ask_question idx question (envs idx)) as [flow effects] eqn:Hq.
    destruct flow as [content| | |e].
    + (* answered *)
      destruct (askable question); [|discriminate Hask]. clear Hask.
      pose proof (ask_question_goes_on _ _ _ _ _ Hq ltac:(discriminate)) as Hnone.
      destruct (answer_sent (envs idx)).
      * edestruct IH as (added & new & Ht & Ha & Hu & Hp & Hk & Ho).
        rewrite Ht, Ha, Hu. cbn.
        eexists (effects ++ _ :: added), (_ :: new).
        rewrite <- !app_assoc. cbn.
        split; [reflexivity|]. split; [reflexivity|]. split; [reflexivity|].
        split; [by apply prefix_cons|].
        split; [constructor; [by apply Hkind|done]|].
        rewrite List.filter_app, Hnone. cbn.
        destruct (ask_questions _ _ _ _ _); cbn in *.
        -- destruct Ho as [-> ?]. done.
        -- destruct Ho as (before & c & -> & Hb).
           exists (effects ++ UserSend (answer_echo box idx content) :: before), c.
           rewrite <- app_assoc. split; [done|].
           rewrite List.filter_app, Hnone. done.
        -- done.
      * cbn. eexists (effects ++ [_; _]), [_]. rewrite <- !app_assoc. cbn.
        split; [reflexivity|]. split; [reflexivity|]. split; [reflexivity|].
        split; [apply prefix_cons, prefix_nil|].
        split; [constructor; [by apply Hkind|constructor]|].
        eexists (effects ++ [_]), _. rewrite <- app_assoc. split; [reflexivity|].
        rewrite List.filter_app, Hnone. done.
    + (* passed over *)
      destruct (askable question); [done|]. injection Hask as ->.
      edestruct IH as (added & new & Ht & Ha & Hu & Hp & Hk & Ho).
      exists added, new. rewrite Ht, Ha, Hu. cbn. rewrite app_nil_r.
      repeat split; try done. 
    + (* returned *)
      destruct (askable question); [|discriminate Hask].
      destruct (ask_question_return _ _ _ _ Hq) as (before & c & -> & Hb).
      cbn. exists (before ++ [FollowupSend c true]), [].
      split; [reflexivity|]. split; [by rewrite app_nil_r|]. split; [reflexivity|].
      split; [apply prefix_nil|]. split; [constructor|]. eauto.
    + (* raised *)
      destruct (askable question); [|discriminate Hask].
      pose proof (ask_question_goes_on _ _ _ _ _ Hq ltac:(discriminate)) as Hnone.
      destruct (ask_question_raise _ _ _ _ _ Hq) as (-> & _ & _).
      cbn. exists effects, [].
      split; [reflexivity|]. split; [by rewrite app_nil_r|]. split; [reflexivity|].
      split; [apply prefix_nil|]. split; [constructor|]. done.
Qed.

End LoopFacts.

(** ** applications: the submission *)

Section SubmitFacts.
Import Applications Submission.

Context {K : Type}.
Variable process_tagscript : string → nat → gmap string K.
Variable DEFAULT_SETTINGS_MESSAGE : string.

Lemma submit_response_ends (app : Application) (user : Applicant) (response_id : string)
    (env : SubmitEnv) (response : Response) (store : Store) :
  ∃ before content,
    (submit_response process_tagscript DEFAULT_SETTINGS_MESSAGE
       app user response_id env response store).1 = before ++ [Followup content true]
    ∧ Forall not_followup before.
Proof.
  unfold submit_response.
  destruct (channel_found env), (channel_sent env), (app_thread app),
    (config_apps store !! lower (app_name app)) as [stored|]; cbn [negb fst];
    try destruct (Nat.eqb _ 0); cbn [fst Datatypes.app];
    match goal with
    | |- ∃ before content, ?l = _ ∧ _ =>
        exists (removelast l); eexists; split; [reflexivity|cbn; repeat constructor]
    end.
Qed.

Lemma applicant_view_ends (effects before : list (SubmitEffect K)) (content : string) :
  effects = before ++ [Followup content true] →
  Forall not_followup before →
  omap applicant_view effects = omap applicant_view before ++ [FollowupSend content true]
  ∧ List.filter is_followup (omap applicant_view before) = [].
Proof.
  intros -> Hb. rewrite omap_app. split; [done|].
  induction Hb as [|e before He _ IH]; [done|].
  destruct e; cbn in *; try done.
Qed.

End SubmitFacts.

Section SubmitProps.
Import Applications Submission.
Context {K : Type}.
Variable process_tagscript : string → nat → gmap string K.
Variable DEFAULT_SETTINGS_MESSAGE : string.

(** The effects and the store of a submission, by the three ways it can go. *)
Lemma submit_response_cases (app : Application) (user : Applicant) (response_id : string)
    (env : SubmitEnv) (response : Response) (store : Store) :
  let result := submit_response process_tagscript DEFAULT_SETTINGS_MESSAGE
                  app user response_id env response store in
  let post := ChannelSend (response_description app user response_id response)
                (response_fields response) in
  let count := S (length (app_responses store)) in
  (* the post did not go out *)
  ((channel_found env && channel_sent env = false)
   ∧ result.2 = store
   ∧ ∃ before, result.1 = before ++ [Direct settings_error; Followup settings_error true]
               ∧ (before = [] ∨ before = [post]))
  ∨ (* the application is gone *)
  ((channel_found env && channel_sent env = true)
   ∧ config_apps store !! lower (app_name app) = None
   ∧ result.2 = {| app_responses := app_responses store ++ [response];
                    config_apps := config_apps store |}
   ∧ ∃ thread, result.1
       = post :: thread
         ++ [Direct "Something went wrong, the application doesn't seem to exist anymore!";
             Followup "Failed because the application doesn't seem to exist anymore!" true]
       ∧ (thread = [] ∨ thread = [CreateThread ("Response " +:+ response_id)]))
  ∨ (* stored *)
  ((channel_found env && channel_sent env = true)
   ∧ ∃ stored,
       config_apps store !! lower (app_name app) = Some stored
       ∧ result.2 = {| app_responses := app_responses store ++ [response];
                        config_apps := <[lower (app_name app) := stored ++ [response]]>
                                         (config_apps store) |}
       ∧ ∃ thread reset kwargs,
           result.1 = post :: thread ++ reset
                      ++ [EditOriginalResponse kwargs; Direct (submitted response_id);
                          Followup (submitted response_id) true]
           ∧ (thread = [] ∨ thread = [CreateThread ("Response " +:+ response_id)])
           ∧ ((process_tagscript (app_message app) count = ∅
               ∧ reset = [EditSetting (lower (app_name app)) "message"
                            DEFAULT_SETTINGS_MESSAGE]
               ∧ kwargs = process_tagscript DEFAULT_SETTINGS_MESSAGE count)
              ∨ (process_tagscript (app_message app) count ≠ ∅
                 ∧ reset = []
                 ∧ kwargs = process_tagscript (app_message app) count))).
Proof.
  cbv zeta. unfold submit_response.
  destruct (channel_found env), (channel_sent env); cbn [negb andb].
  2: { left. split; [done|split; [done|]]. eexists [_]. split; [reflexivity|auto]. }
  2-3: left; (split; [done|split; [done|]]); exists []; (split; [reflexivity|auto]).
  destruct (config_apps store !! lower (app_name app)) as [stored|] eqn:Hkey.
  - right; right. split; [done|]. exists stored. split; [done|].
    rewrite length_app, Nat.add_1_r.
    destruct (Nat.eqb_spec (size (process_tagscript (app_message app)
                                    (S (length (app_responses store))))) 0) as [Hsize|Hsize].
    + apply map_size_empty_iff in Hsize. split; [done|].
      destruct (app_thread app); [eexists [_], [_], _|eexists [], [_], _];
        (split; [reflexivity|split; [auto|left; done]]).
    + split; [done|].
      assert (process_tagscript (app_message app) (S (length (app_responses store))) ≠ ∅)
        by (by intros ?%map_size_empty_iff).
      destruct (app_thread app); [eexists [_], [], _|eexists [], [], _];
        (split; [reflexivity|split; [auto|right; done]]).
  - right; left. split; [done|]. split; [done|]. split; [done|].
    destruct (app_thread app); [eexists [_]|exists []]; (split; [reflexivity|auto]).
Qed.

End SubmitProps.

Section HandlerFacts.
Import Applications Submission.

Variable box : string → string.

(** With a colour that is accepted, the rounds are those of the loop
    without the embed. *)
Lemma rounds_with_colour (u : unit) (questions : list Question) (idx : nat)
    (envs : nat → QuestionEnv) (st : State) :
  Handler.ask_questions box (Returned u) idx questions envs st
  = ask_questions box idx questions envs st.
Proof.
  revert idx st. induction questions as [|question questions IH]; intros idx st; [done|].
  cbn [Handler.ask_questions ask_questions].
  destruct (ask_question idx question (envs idx)) as [[content| | |e] effects];
    rewrite ?IH; try done.
Qed.

(** With a colour that is refused, the first round raises before anything
    is asked. *)
Lemma rounds_without_colour (e : exn) (question : Question) (rest : list Question)
    (idx : nat) (envs : nat → QuestionEnv) (st : State) :
  Handler.ask_questions box (Raised e) idx (question :: rest) envs st = Raises e st.
Proof. done. Qed.

End HandlerFacts.

(** X1: however the handler goes (no questions, a first message that could
    not be sent, any way the rounds and the submission end), when it returns
    the interaction has been answered exactly once: the last thing done is
    an ephemeral follow-up and there is no other follow-up.  When it raises,
    from the colour of the embed or from a choices or boolean question that
    could not be sent, no follow-up has been sent.  The follow-up sends
    themselves are taken to succeed. *)
Theorem interaction_answered_once {K : Type}
    (box : string → string) (color : pyresult unit)
    (process_tagscript : string → nat → gmap string K)
    (DEFAULT_SETTINGS_MESSAGE : string) (app : Submission.Application)
    (applicant : Submission.Applicant) (response_id : string)
    (env : Submission.SubmitEnv) (store : Submission.Store)
    (user : Z) (questions : list Applications.Question)
    (original : Applications.Delivery) (envs : nat → Applications.QuestionEnv) :
  match Handler.on_application_applied box color
          (Submission.submit process_tagscript DEFAULT_SETTINGS_MESSAGE app applicant
             response_id env store)
          user questions original envs with
  | Applications.Returns st =>
      ∃ before content,
        Applications.trace st = before ++ [Applications.FollowupSend content true]
        ∧ List.filter Submission.is_followup before = []
  | Applications.Raises e st =>
      List.filter Submission.is_followup (Applications.trace st) = []
  | Applications.Completed _ => False
  end.
Proof.
  unfold Handler.on_application_applied.
  destruct questions as [|question questions]; cbn [list_truthy negb].
  { by exists [], "There are no questions configured for this application!". }
  destruct original.
  - destruct color as [u|e]; [|done].
    rewrite rounds_with_colour.
    pose proof (ask_questions_invariant box (question :: questions) 0 envs
                  (Applications.log
                     [Applications.opening_message (question :: questions)]
                     (Applications.fresh_state user)))
      as (added & new & Ht & _ & _ & _ & _ & Ho).
    destruct (Applications.ask_questions _ _ _ _ _) as [st|st|e st]; cbn in Ht.
    + destruct Ho as [_ Hnone]. unfold Submission.submit. cbn. rewrite Ht.
      destruct (submit_response_ends process_tagscript DEFAULT_SETTINGS_MESSAGE
                  app applicant response_id env (Applications.response st) store)
        as (before & content & Heff & Hbefore).
      destruct (applicant_view_ends _ _ _ Heff Hbefore) as [-> Hview].
      exists (Applications.opening_message (question :: questions)
              :: added ++ omap Submission.applicant_view before), content.
      split; [cbn; by rewrite <- app_assoc|].
      cbn. by rewrite List.filter_app, Hnone, Hview.
    + destruct Ho as (before & content & -> & Hnone). rewrite Ht.
      by exists (Applications.opening_message (question :: questions) :: before), content.
    + destruct Ho as [_ Hnone]. by rewrite Ht.
  - by eexists [_], _.
  - by eexists [_], _.
Qed.

(** X20: when [discord.Color.from_str] refuses the colour of the
    application, a handler whose first message was delivered raises that
    error in the first round: the applicant has the list of the questions,
    no question was sent, no answer recorded and no follow-up sent.  The
    colour is not looked at when there are no questions or the first message
    could not be sent, and with a colour that is accepted the handler goes
    as the rounds without the embed do. *)
Theorem refused_colour_raises_unanswered (box : string → string) (e : exn)
    (submit : Applications.State → Applications.Outcome) (user : Z)
    (question : Applications.Question) (rest : list Applications.Question)
    (envs : nat → Applications.QuestionEnv) :
  Handler.on_application_applied box (Raised e) submit user (question :: rest)
    Applications.Delivered envs
  = Applications.Raises e
      {| Applications.response :=
           {| Applications.r_user := user; Applications.r_answers := [] |};
         Applications.trace := [Applications.opening_message (question :: rest)] |}
  ∧ (∀ u original,
        Handler.on_application_applied box (Returned u) submit user (question :: rest)
          original envs
        = Applications.on_application_applied box submit user (question :: rest)
            original envs)
  ∧ (∀ color original,
        original ≠ Applications.Delivered →
        Handler.on_application_applied box color submit user (question :: rest)
          original envs
        = Applications.on_application_applied box submit user (question :: rest)
            original envs)
  ∧ (∀ color original,
        Handler.on_application_applied box color submit user [] original envs
        = Applications.on_application_applied box submit user [] original envs).
Proof.
  split; [done|]. split; [|split].
  - intros u original. unfold Handler.on_application_applied,
      Applications.on_application_applied. by rewrite rounds_with_colour.
  - intros color [] Hne; done.
  - done.
Qed.

(** X2: whatever the outcome of the loop, the response keeps its user and
    the answers it had; the answers added are for the questions the loop has
    a branch for, in their order, each of type "text", "choices" or
    "boolean", and never more than there are questions. *)
Theorem answers_follow_questions (box : string → string) (idx : nat)
    (questions : list Applications.Question) (envs : nat → Applications.QuestionEnv)
    (st : Applications.State) :
  ∃ new,
    Applications.r_answers (Applications.response
      (Submission.outcome_state (Applications.ask_questions box idx questions envs st)))
    = Applications.r_answers (Applications.response st) ++ new
    ∧ Applications.r_user (Applications.response
        (Submission.outcome_state (Applications.ask_questions box idx questions envs st)))
      = Applications.r_user (Applications.response st)
    ∧ (Applications.a_question <$> new)
        `prefix_of` (Applications.q_text <$> List.filter Submission.askable questions)
    ∧ Forall (λ a, Applications.a_type a ∈ ["text"; "choices"; "boolean"]) new
    ∧ (length new ≤ length questions)%nat.
Proof.
  destruct (ask_questions_invariant box questions idx envs st)
    as (added & new & _ & Ha & Hu & Hp & Hk & _).
  exists new. repeat split; try done.
  apply prefix_length in Hp. rewrite !length_fmap in Hp.
  pose proof (List.filter_length_le Submission.askable questions). lia.
Qed.

(** X3: when the loop runs to its end, every question it has a branch for
    was answered, in order (a question of another type, or of type
    "choices" without choices, is passed over), and no follow-up was sent
    yet. *)
Theorem completed_answers_all (box : string → string) (idx : nat)
    (questions : list Applications.Question) (envs : nat → Applications.QuestionEnv)
    (st st' : Applications.State) :
  Applications.ask_questions box idx questions envs st = Applications.Completed st' →
  ∃ new,
    Applications.r_answers (Applications.response st')
    = Applications.r_answers (Applications.response st) ++ new
    ∧ Applications.a_question <$> new
      = Applications.q_text <$> List.filter Submission.askable questions
    ∧ List.filter Submission.is_followup (Applications.trace st')
      = List.filter Submission.is_followup (Applications.trace st).
Proof.
  intros Hrun.
  destruct (ask_questions_invariant box questions idx envs st)
    as (added & new & Ht & Ha & _ & _ & _ & Ho).
  rewrite Hrun in Ht, Ha, Ho. cbn in Ht, Ha. destruct Ho as [Hall Hnone].
  exists new. repeat split; try done.
  by rewrite Ht, List.filter_app, Hnone, app_nil_r.
Qed.

Lemma completed_answers_all_witness :
  ∃ new,
    [ {| Applications.a_question := "Are you over 18?";
         Applications.a_type := "boolean";
         Applications.a_answer := "Yes" |} ]
    = [] ++ new
    ∧ Applications.a_question <$> new
      = Applications.q_text
          <$> List.filter Submission.askable
                [ {| Applications.q_text := "Pick a colour"; Applications.q_type := "choices";
                     Applications.q_required := true; Applications.q_choices := [] |};
                  Applications.age_question ]
    ∧ List.filter Submission.is_followup
        [Applications.UserSendView Applications.PatchedConfirmView
           (Applications.question_description 1 Applications.age_question) true;
         Applications.ViewWait Applications.PatchedConfirmView;
         Applications.UserSend (Applications.answer_echo (λ s, s) 1 "Yes")]
      = List.filter Submission.is_followup [].
Proof.
  apply (completed_answers_all (λ s, s) 0
           [ {| Applications.q_text := "Pick a colour"; Applications.q_type := "choices";
                Applications.q_required := true; Applications.q_choices := [] |};
             Applications.age_question ]
           (λ _, {| Applications.view_sent := true; Applications.reply := None;
                    Applications.view_cancel := false; Applications.view_skip := false;
                    Applications.choice_timed_out := false;
                    Applications.choice_answer := None;
                    Applications.confirm_result := Some true;
                    Applications.answer_sent := true |})
           (Applications.fresh_state 7)
           {| Applications.response :=
                {| Applications.r_user := 7;
                   Applications.r_answers :=
                     [ {| Applications.a_question := "Are you over 18?";
                          Applications.a_type := "boolean";
                          Applications.a_answer := "Yes" |} ] |};
              Applications.trace :=
                [Applications.UserSendView Applications.PatchedConfirmView
                   (Applications.question_description 1 Applications.age_question) true;
                 Applications.ViewWait Applications.PatchedConfirmView;
                 Applications.UserSend (Applications.answer_echo (λ s, s) 1 "Yes")] |}).
  reflexivity.
Defined.

(** X4: once a question was sent (and, for a text question, a reply came
    in), a pressed cancel button ends the application with the follow-up
    "Application cancelled!" whatever else was pressed or answered. *)
Theorem cancel_wins (idx : nat) (question : Applications.Question)
    (env : Applications.QuestionEnv) :
  Submission.askable question = true →
  Applications.view_sent env = true →
  Applications.view_cancel env = true →
  (lower (Applications.q_type question) = "text" → is_Some (Applications.reply env)) →
  ∃ before,
    Applications.ask_question idx question env
    = (Applications.Return,
       before ++ [Applications.FollowupSend "Application cancelled!" true])
    ∧ List.filter Submission.is_followup before = [].
Proof.
  unfold Submission.askable, Applications.ask_question, Applications.ask_text,
    Applications.ask_choices, Applications.ask_boolean.
  intros Hask -> -> Hreply.
  repeat case_bool_decide; cbn [andb orb negb] in *; try discriminate Hask;
    first
      [ destruct (Hreply ltac:(assumption)) as [content ->];
        eexists [_; _; _]; split; reflexivity
      | destruct (Applications.choice_timed_out env); cbn [negb];
        eexists; split; reflexivity
      | eexists [_; _; _]; split; reflexivity ].
Qed.

Lemma cancel_wins_witness :
  ∃ before,
    Applications.ask_question 0 Applications.reason_question
      {| Applications.view_sent := true; Applications.reply := Some "Because";
         Applications.view_cancel := true; Applications.view_skip := true;
         Applications.choice_timed_out := false; Applications.choice_answer := None;
         Applications.confirm_result := None; Applications.answer_sent := true |}
    = (Applications.Return,
       before ++ [Applications.FollowupSend "Application cancelled!" true])
    ∧ List.filter Submission.is_followup before = [].
Proof.
  apply (cancel_wins 0 Applications.reason_question
           {| Applications.view_sent := true; Applications.reply := Some "Because";
              Applications.view_cancel := true; Applications.view_skip := true;
              Applications.choice_timed_out := false; Applications.choice_answer := None;
              Applications.confirm_result := None; Applications.answer_sent := true |});
    [reflexivity|reflexivity|reflexivity|by eexists].
Defined.

(** X5: the embed posted to the channel carries a field for each of the
    first 25 answers and no more: field [i] is named "Question i+1" and
    shows the question and the answer of the answer at index [i]. *)
Theorem posted_fields_bounded {K : Type}
    (process_tagscript : string → nat → gmap string K) (DEFAULT_SETTINGS_MESSAGE : string)
    (app : Submission.Application) (user : Submission.Applicant) (response_id : string)
    (env : Submission.SubmitEnv) (response : Applications.Response)
    (store : Submission.Store) :
  (∀ description fields,
      Submission.ChannelSend description fields
      ∈ (Submission.submit_response process_tagscript DEFAULT_SETTINGS_MESSAGE
           app user response_id env response store).1 →
      fields = Submission.response_fields response)
  ∧ length (Submission.response_fields response)
    = Nat.min 25 (length (Applications.r_answers response))
  ∧ ∀ i name value,
      Submission.response_fields response !! i = Some (name, value) →
      (i < 25)%nat
      ∧ name = "Question " +:+ pretty (i + 1)%nat
      ∧ ∃ answer,
          Applications.r_answers response !! i = Some answer
          ∧ value = "- **" +:+ Applications.a_question answer +:+ "**"
                    +:+ String newline ("- " +:+ Applications.a_answer answer).
Proof.
  split; [|split].
  - intros description fields.
    destruct (submit_response_cases process_tagscript DEFAULT_SETTINGS_MESSAGE
                app user response_id env response store)
      as [(_ & _ & before & -> & Hb)|[(_ & _ & _ & thread & -> & Ht)
         |(_ & stored & _ & _ & thread & reset & kwargs & -> & Ht & Hr)]].
    + destruct Hb as [-> | ->]; cbn; rewrite ?elem_of_cons, elem_of_nil;
        intros H; repeat (destruct H as [H|H]); try discriminate H; try done.
      by injection H.
    + destruct Ht as [-> | ->]; cbn; rewrite ?elem_of_cons, elem_of_nil;
        intros H; repeat (destruct H as [H|H]); try discriminate H; try done;
        by injection H.
    + destruct Ht as [-> | ->], Hr as [(_ & -> & _)|(_ & -> & _)]; cbn;
        rewrite ?elem_of_cons, elem_of_nil;
        intros H; repeat (destruct H as [H|H]); try discriminate H; try done;
        by injection H.
  - unfold Submission.response_fields. by rewrite length_imap, length_take.
  - intros i name value. unfold Submission.response_fields.
    rewrite list_lookup_imap. intros Hi.
    destruct (take 25 (Applications.r_answers response) !! i) as [answer|] eqn:Htake;
      [|discriminate Hi].
    injection Hi as <- <-.
    pose proof (lookup_lt_Some _ _ _ Htake) as Hlt. rewrite length_take in Hlt.
    split; [lia|]. split; [done|]. exists answer. split; [|done].
    rewrite lookup_take_lt in Htake; [done|lia].
Qed.

(** X6: the stored responses change only when the applicant is told that
    the application was submitted, and then exactly by appending the
    response to the list of the application (and to [app.responses]).  The
    one other write to the configuration is [edit_setting_for], which sets
    the message of the application to the default one: it is called on that
    path only, and there exactly when the message of the application
    processes to nothing.  In every other case the stored responses stay as
    they were, no setting is written and the original response is not
    edited. *)
Theorem stored_only_when_acknowledged {K : Type}
    (process_tagscript : string → nat → gmap string K) (DEFAULT_SETTINGS_MESSAGE : string)
    (app : Submission.Application) (user : Submission.Applicant) (response_id : string)
    (env : Submission.SubmitEnv) (response : Applications.Response)
    (store : Submission.Store) :
  let result := Submission.submit_response process_tagscript DEFAULT_SETTINGS_MESSAGE
                  app user response_id env response store in
  let acknowledged :=
    last result.1 = Some (Submission.Followup (Submission.submitted response_id) true) in
  (acknowledged →
   (∃ stored,
      Submission.config_apps store !! lower (Submission.app_name app) = Some stored
      ∧ Submission.config_apps result.2
        = <[lower (Submission.app_name app) := stored ++ [response]]>
            (Submission.config_apps store)
      ∧ Submission.app_responses result.2 = Submission.app_responses store ++ [response])
   ∧ ∀ name object value,
       Submission.EditSetting name object value ∈ result.1
       ↔ process_tagscript (Submission.app_message app)
           (S (length (Submission.app_responses store))) = ∅
         ∧ name = lower (Submission.app_name app)
         ∧ object = "message"
         ∧ value = DEFAULT_SETTINGS_MESSAGE)
  ∧ (¬ acknowledged →
     Submission.config_apps result.2 = Submission.config_apps store
     ∧ (∀ kwargs, Submission.EditOriginalResponse kwargs ∉ result.1)
     ∧ ∀ name object value, Submission.EditSetting name object value ∉ result.1).
Proof.
  cbv zeta.
  assert (Hne1 : Submission.settings_error ≠ Submission.submitted response_id)
    by (unfold Submission.settings_error, Submission.submitted; discriminate).
  assert (Hne2 : "Failed because the application doesn't seem to exist anymore!"
                 ≠ Submission.submitted response_id)
    by (unfold Submission.submitted; discriminate).
  destruct (submit_response_cases process_tagscript DEFAULT_SETTINGS_MESSAGE
              app user response_id env response store)
    as [(_ & -> & before & -> & Hb)|[(_ & _ & -> & thread & -> & Ht)
       |(_ & stored & Hkey & -> & thread & reset & kwargs & -> & Ht & Hr)]].
  - rewrite last_app. cbn. split; [intros [= ?]; done|]. intros _. split; [done|].
    split; intros; destruct Hb as [-> | ->]; cbn;
      rewrite ?elem_of_cons, elem_of_nil; intros H;
      repeat (destruct H as [H|H]); try discriminate H; done.
  - rewrite app_comm_cons, last_app. cbn. split; [intros [= ?]; done|].
    intros _. split; [done|].
    split; intros; destruct Ht as [-> | ->]; cbn;
      rewrite ?elem_of_cons, elem_of_nil; intros H;
      repeat (destruct H as [H|H]); try discriminate H; done.
  - rewrite app_comm_cons, !last_app. cbn. split; [|done].
    intros _. split; [by exists stored|].
    intros name object value.
    destruct Ht as [-> | ->], Hr as [(Hempty & -> & _)|(Hfull & -> & _)]; cbn;
      rewrite ?elem_of_cons, elem_of_nil; (split; [intros H|intros (H & -> & -> & ->)]).
    all: try (repeat (destruct H as [H|H]); try discriminate H; try done;
              by injection H as -> -> ->).
    all: try (by auto 10).
Qed.

(** X7: when the post went out but the application is no longer in the
    stored configuration, the response was already posted and appended to
    [app.responses]; the configuration is unchanged and the applicant is
    told that it failed. *)
Theorem vanished_application_keeps_response {K : Type}
    (process_tagscript : string → nat → gmap string K) (DEFAULT_SETTINGS_MESSAGE : string)
    (app : Submission.Application) (user : Submission.Applicant) (response_id : string)
    (env : Submission.SubmitEnv) (response : Applications.Response)
    (store : Submission.Store) :
  Submission.channel_found env = true →
  Submission.channel_sent env = true →
  Submission.config_apps store !! lower (Submission.app_name app) = None →
  let result := Submission.submit_response process_tagscript DEFAULT_SETTINGS_MESSAGE
                  app user response_id env response store in
  Submission.app_responses result.2 = Submission.app_responses store ++ [response]
  ∧ Submission.config_apps result.2 = Submission.config_apps store
  ∧ Submission.ChannelSend
      (Submission.response_description app user response_id response)
      (Submission.response_fields response) ∈ result.1
  ∧ last result.1
    = Some (Submission.Followup
              "Failed because the application doesn't seem to exist anymore!" true).
Proof.
  intros Hfound Hsent Hkey. cbv zeta.
  destruct (submit_response_cases process_tagscript DEFAULT_SETTINGS_MESSAGE
              app user response_id env response store)
    as [(Hpost & _)|[(_ & _ & -> & thread & -> & Ht)|(_ & stored & Hkey' & _)]].
  - by rewrite Hfound, Hsent in Hpost.
  - split; [done|]. split; [done|]. split; [by left|].
    by rewrite app_comm_cons, last_app.
  - by rewrite Hkey in Hkey'.
Qed.

Lemma vanished_application_keeps_response_witness :
  let result :=
    Submission.submit_response (K := string) (λ message _, {[ "content" := message ]})
      "Thanks!"
      {| Submission.app_name := "Staff"; Submission.app_description := "Staff team";
         Submission.app_thread := true; Submission.app_message := "Received." |}
      {| Submission.mention := "<@7>"; Submission.global_name := "Rin" |} "r-1"
      {| Submission.channel_found := true; Submission.channel_sent := true |}
      {| Applications.r_user := 7; Applications.r_answers := [] |}
      {| Submission.app_responses := []; Submission.config_apps := ∅ |} in
  Submission.app_responses result.2
  = [] ++ [ {| Applications.r_user := 7; Applications.r_answers := [] |} ]
  ∧ Submission.config_apps result.2 = ∅
  ∧ Submission.ChannelSend
      (Submission.response_description
         {| Submission.app_name := "Staff"; Submission.app_description := "Staff team";
            Submission.app_thread := true; Submission.app_message := "Received." |}
         {| Submission.mention := "<@7>"; Submission.global_name := "Rin" |} "r-1"
         {| Applications.r_user := 7; Applications.r_answers := [] |})
      (Submission.response_fields {| Applications.r_user := 7; Applications.r_answers := [] |})
    ∈ result.1
  ∧ last result.1
    = Some (Submission.Followup
              "Failed because the application doesn't seem to exist anymore!" true).
Proof.
  apply (vanished_application_keeps_response (K := string)
           (λ message _, {[ "content" := message ]}) "Thanks!"
           {| Submission.app_name := "Staff"; Submission.app_description := "Staff team";
              Submission.app_thread := true; Submission.app_message := "Received." |}
           {| Submission.mention := "<@7>"; Submission.global_name := "Rin" |} "r-1"
           {| Submission.channel_found := true; Submission.channel_sent := true |}
           {| Applications.r_user := 7; Applications.r_answers := [] |}
           {| Submission.app_responses := []; Submission.config_apps := ∅ |});
    reflexivity.
Defined.



(** ** boostutils: what [process_tagscript] hands on *)

Lemma str_take_nonempty (n : nat) (s : string) : s ≠ "" → str_take (S n) s ≠ "".
Proof. by destruct s. Qed.

(** X9: whatever [process_tagscript] returns, a "content" entry is a
    non-empty string of at most 2000 characters and an "embed" entry is a
    truthy action. *)
Theorem content_never_empty (depth_limit : nat) (content : string)
    (seed_variables : gmap string TagScript.Adapter) (kwargs : gmap string BoostUtils.Any) :
  BoostUtils.process_tagscript depth_limit content seed_variables = Returned kwargs →
  (∀ v, kwargs !! "content" = Some v →
        ∃ t, v = BoostUtils.AnyStr t ∧ t ≠ "" ∧ (String.length t ≤ 2000)%nat)
  ∧ (∀ v, kwargs !! "embed" = Some v →
          ∃ embed, v = BoostUtils.AnyAction embed
                   ∧ TagScript.action_truthy embed = true).
Proof.
  intros Hrun.
  destruct (TagScript.process (BoostUtils.engine depth_limit) content seed_variables)
    as [output|e] eqn:Hout.
  2: { unfold BoostUtils.process_tagscript in Hrun. by rewrite Hout in Hrun. }
  destruct (process_tagscript_keys depth_limit _ _ _ Hout)
    as (kwargs' & Hrun' & Hcontent & Hembed & _).
  rewrite Hrun in Hrun'. injection Hrun' as <-.
  split; intros v Hv.
  - rewrite Hcontent in Hv.
    destruct (TagScript.body output) as [b|]; [|discriminate Hv].
    destruct (str_truthy (Some b)) eqn:Hb; [|discriminate Hv].
    apply str_truthy_Some in Hb.
    change (default "" (Some b)) with b in Hv.
    pose proof (str_take_nonempty 1999 b Hb) as Hne.
    pose proof (str_take_length 2000 b) as Hlen.
    change (S 1999) with 2000%nat in Hne.
    generalize dependent (str_take 2000 b). intros t [= <-] Hne Hlen.
    exists t. split; [reflexivity|]. split; [done|lia].
  - rewrite Hembed in Hv.
    destruct (TagScript.actions output !! "embed") as [embed|]; [|discriminate Hv].
    destruct (TagScript.action_truthy embed) eqn:Ht; [|discriminate Hv].
    injection Hv as <-. eauto.
Qed.

Lemma content_never_empty_witness :
  (∀ v, ({[ "content" := BoostUtils.AnyStr "@Rin just unboosted the server." ]}
           : gmap string BoostUtils.Any) !! "content" = Some v →
        ∃ t, v = BoostUtils.AnyStr t ∧ t ≠ "" ∧ (String.length t ≤ 2000)%nat)
  ∧ (∀ v, ({[ "content" := BoostUtils.AnyStr "@Rin just unboosted the server." ]}
             : gmap string BoostUtils.Any) !! "embed" = Some v →
          ∃ embed, v = BoostUtils.AnyAction embed
                   ∧ TagScript.action_truthy embed = true).
Proof.
  apply (content_never_empty 2 "{member(mention)} just unboosted the server."
           {[ "member" := TagScript.StringAdapter "@Rin" ]}).
  vm_compute. reflexivity.
Defined.

(** X10: [process_tagscript] returns the empty mapping exactly when the
    body of the response is falsy and there is no truthy "embed" action. *)
Theorem nothing_to_send_iff (depth_limit : nat) (content : string)
    (seed_variables : gmap string TagScript.Adapter) (output : TagScript.Response) :
  TagScript.process (BoostUtils.engine depth_limit) content seed_variables
  = Returned output →
  BoostUtils.process_tagscript depth_limit content seed_variables = Returned ∅
  ↔ str_truthy (TagScript.body output) = false
    ∧ ∀ embed, TagScript.actions output !! "embed" = Some embed →
               TagScript.action_truthy embed = false.
Proof.
  intros Hout.
  destruct (process_tagscript_keys depth_limit _ _ _ Hout)
    as (kwargs & -> & Hcontent & Hembed & Hdom).
  split.
  - intros [= ->]. rewrite lookup_empty in Hcontent, Hembed.
    split; [by destruct (str_truthy _)|].
    intros embed He. rewrite He in Hembed. by destruct (TagScript.action_truthy embed).
  - intros [Hbody He]. f_equal. apply map_eq. intros key.
    rewrite lookup_empty. apply not_elem_of_dom. intros Hkey.
    pose proof (Hdom _ Hkey) as Hin. apply elem_of_dom in Hkey as [v Hv].
    apply elem_of_union in Hin as [->%elem_of_singleton| ->%elem_of_singleton].
    + by rewrite Hcontent, Hbody in Hv.
    + rewrite Hembed in Hv.
      destruct (TagScript.actions output !! "embed") as [embed|] eqn:Hlook; [|done].
      by rewrite (He _ eq_refl) in Hv.
Qed.

Lemma nothing_to_send_iff_witness :
  BoostUtils.process_tagscript 2 "{assign(who):nobody}" ∅ = Returned ∅
  ↔ str_truthy (Some "") = false
    ∧ ∀ embed, (∅ : gmap string TagScript.ActionValue) !! "embed" = Some embed →
               TagScript.action_truthy embed = false.
Proof.
  apply (nothing_to_send_iff 2 "{assign(who):nobody}" ∅
           {| TagScript.body := Some ""; TagScript.actions := ∅;
              TagScript.variables := ∅ |}).
  vm_compute. reflexivity.
Defined.

(** ** tags: listings *)

Lemma str_app_length (s t : string) :
  String.length (s +:+ t) = (String.length s + String.length t)%nat.
Proof.
  induction s as [|c s IH]; [reflexivity|]. rewrite str_app_cons. cbn. by rewrite IH.
Qed.

Lemma str_contains_app (c : ascii) (s t : string) :
  str_contains c (s +:+ t) = str_contains c s || str_contains c t.
Proof.
  induction s as [|c' s IH]; [reflexivity|]. rewrite str_app_cons. cbn.
  by rewrite IH, orb_assoc.
Qed.

Lemma str_contains_take (c : ascii) (n : nat) (s : string) :
  str_contains c s = false → str_contains c (str_take n s) = false.
Proof.
  revert s. induction n as [|n IH]; intros [|c' s]; cbn; try done.
  intros [-> Hs]%orb_false_iff. by rewrite IH.
Qed.

Lemma replace_newline_clean (s : string) :
  str_contains newline (replace_char newline " " s) = false.
Proof.
  induction s as [|c s IH]; [reflexivity|]. cbn.
  destruct (Ascii.eqb c newline) eqn:Hc.
  - by rewrite str_contains_app, IH.
  - cbn. by rewrite Hc, IH.
Qed.

Lemma tag_preview_bounded (script : string) :
  (String.length (Tags.tag_preview script) ≤ 23)%nat
  ∧ str_contains newline (Tags.tag_preview script) = false.
Proof.
  unfold Tags.tag_preview. cbv zeta.
  pose proof (replace_newline_clean script) as Hclean.
  destruct (decide _) as [Hlong|Hshort].
  - split.
    + rewrite str_app_length, str_take_length.
      change (String.length "...") with 3%nat. lia.
    + rewrite str_contains_app. by rewrite str_contains_take.
  - split; [lia|done].
Qed.

Lemma replace_char_absent (c : ascii) (new s : string) :
  str_contains c s = false → replace_char c new s = s.
Proof.
  induction s as [|c' s IH]; [done|]. cbn.
  intros [-> Hs]%orb_false_iff. by rewrite IH.
Qed.

Lemma tag_preview_short (script : string) :
  (String.length script ≤ 23)%nat →
  str_contains newline script = false →
  Tags.tag_preview script = script.
Proof.
  intros Hlen Hclean. unfold Tags.tag_preview. cbv zeta.
  rewrite replace_char_absent by done. destruct (decide _); [lia|done].
Qed.

(** X11: the listing has one entry per tag, in order; the preview in an
    entry has at most 23 characters and no newline, and a tagscript of at
    most 23 characters without a newline is shown whole. *)
Theorem listing_previews_bounded (tag_str : Tags.Tag → string)
    (escape_markdown : string → string) (tags : list Tags.Tag) :
  ∃ aliases description,
    Tags.generate_tag_list tag_str escape_markdown tags
    = {[ "aliases" := aliases; "description" := description ]}
    ∧ length description = length tags
    ∧ ∀ i line,
        description !! i = Some line →
        ∃ tag preview,
          tags !! i = Some tag
          ∧ line = "`" +:+ tag_str tag +:+ "` - " +:+ escape_markdown preview
          ∧ (String.length preview ≤ 23)%nat
          ∧ str_contains newline preview = false
          ∧ ((String.length (Tags.tagscript tag) ≤ 23)%nat →
             str_contains newline (Tags.tagscript tag) = false →
             preview = Tags.tagscript tag).
Proof.
  unfold Tags.generate_tag_list. rewrite tag_list_fold. cbn [fst snd app].
  eexists _, _. split; [reflexivity|]. split; [by rewrite length_fmap|].
  intros i line. rewrite list_lookup_fmap.
  destruct (tags !! i) as [tag|]; [|discriminate]. intros [= <-].
  exists tag, (Tags.tag_preview (Tags.tagscript tag)).
  split; [done|]. split; [done|].
  destruct (tag_preview_bounded (Tags.tagscript tag)) as [Hlen Hclean].
  split; [done|]. split; [done|]. apply tag_preview_short.
Qed.

Lemma length_concat_sum {A} (ls : list (list A)) :
  length (concat ls) = sum_list (length <$> ls).
Proof. induction ls as [|l ls IH]; [done|]. cbn. by rewrite length_app, IH. Qed.

Lemma show_generated_list (tag_str : Tags.Tag → string)
    (escape_markdown : string → string) (pagify : string → list string)
    (tags : list Tags.Tag) (name : string) (icon_url : option string) :
  TagCommands.show_tag_list pagify
    (Tags.generate_tag_list tag_str escape_markdown tags) name icon_url
  = Returned
      (imap (λ index page,
               {| TagCommands.le_author := name; TagCommands.le_icon_url := icon_url;
                  TagCommands.le_description := page;
                  TagCommands.le_footer :=
                    pretty (index + 1)%nat +:+ "/"
                    +:+ pretty (length (pagify (Applications.join_lines
                                                  (Tags.tag_line tag_str escape_markdown
                                                     <$> tags))))
                    +:+ " | " +:+ pretty (length tags) +:+ " tags | "
                    +:+ pretty (sum_list (length <$> (Tags.aliases <$> tags)))
                    +:+ " aliases" |})
            (pagify (Applications.join_lines
                       (Tags.tag_line tag_str escape_markdown <$> tags)))).
Proof.
  unfold Tags.generate_tag_list. rewrite tag_list_fold. cbn [fst snd app].
  unfold TagCommands.show_tag_list, TagCommands.dict_getitem.
  rewrite lookup_insert_eq, lookup_insert_ne, lookup_singleton_eq by done.
  cbn. by rewrite length_fmap, length_concat_sum.
Qed.

(** X12: [show_tag_list] on the data of [generate_tag_list] finds both
    keys; it makes one embed per page of the joined entries, and the footer
    of page [i] reads "i+1/pages | n tags | m aliases" with [n] the number
    of tags and [m] the number of all their aliases. *)
Theorem listing_footers_count (tag_str : Tags.Tag → string)
    (escape_markdown : string → string) (pagify : string → list string)
    (tags : list Tags.Tag) (name : string) (icon_url : option string) :
  ∃ embeds,
    TagCommands.show_tag_list pagify
      (Tags.generate_tag_list tag_str escape_markdown tags) name icon_url
    = Returned embeds
    ∧ TagCommands.le_description <$> embeds
      = pagify (Applications.join_lines
                  ((λ tag, "`" +:+ tag_str tag +:+ "` - "
                           +:+ escape_markdown (Tags.tag_preview (Tags.tagscript tag)))
                     <$> tags))
    ∧ ∀ i embed,
        embeds !! i = Some embed →
        TagCommands.le_author embed = name
        ∧ TagCommands.le_footer embed
          = pretty (i + 1)%nat +:+ "/" +:+ pretty (length embeds)
            +:+ " | " +:+ pretty (length tags) +:+ " tags | "
            +:+ pretty (sum_list (length <$> (Tags.aliases <$> tags))) +:+ " aliases".
Proof.
  rewrite show_generated_list. eexists. split; [reflexivity|].
  rewrite length_imap. split.
  - apply list_eq. intros i. rewrite list_lookup_fmap, list_lookup_imap.
    by destruct (_ !! i).
  - intros i embed. rewrite list_lookup_imap.
    destruct (_ !! i); [|discriminate]. by intros [= <-].
Qed.

(** X13: the four listing commands never raise.  Without tags each answers
    with its notice; with tags each answers with a menu of one embed per
    page of the listing, under the title of the command. *)
Theorem listings_answer (tag_str : Tags.Tag → string)
    (escape_markdown : string → string) (pagify : string → list string)
    (keyword : string) (tags : list Tags.Tag) (icon_url : option string)
    (avatar_url : string) :
  let pages := pagify (Applications.join_lines
                         (Tags.tag_line tag_str escape_markdown <$> tags)) in
  match tags with
  | [] =>
      TagCommands.tag_list tag_str escape_markdown pagify tags icon_url
      = Returned (TagCommands.Notice "There are no stored tags on this server.")
      ∧ TagCommands.tag_global_list tag_str escape_markdown pagify tags avatar_url
        = Returned (TagCommands.Notice "There are no global tags.")
      ∧ TagCommands.tag_search tag_str escape_markdown pagify keyword tags icon_url
        = Returned (TagCommands.Notice
                      ("There are no close matches for '" +:+ keyword +:+ "'."))
      ∧ TagCommands.tag_global_search tag_str escape_markdown pagify keyword tags avatar_url
        = Returned (TagCommands.Notice
                      ("There are no close matches for '" +:+ keyword +:+ "'."))
  | _ :: _ =>
      ∃ stored global found found_global,
        TagCommands.tag_list tag_str escape_markdown pagify tags icon_url
        = Returned (TagCommands.Menu stored)
        ∧ TagCommands.tag_global_list tag_str escape_markdown pagify tags avatar_url
          = Returned (TagCommands.Menu global)
        ∧ TagCommands.tag_search tag_str escape_markdown pagify keyword tags icon_url
          = Returned (TagCommands.Menu found)
        ∧ TagCommands.tag_global_search tag_str escape_markdown pagify keyword tags
            avatar_url
          = Returned (TagCommands.Menu found_global)
        ∧ Forall (λ embeds, TagCommands.le_description <$> embeds = pages)
            [stored; global; found; found_global]
        ∧ TagCommands.le_author <$> stored = replicate (length pages) "Stored Tags"
        ∧ TagCommands.le_author <$> global = replicate (length pages) "Global Tags"
        ∧ TagCommands.le_author <$> found = replicate (length pages) "Search Results"
        ∧ TagCommands.le_author <$> found_global
          = replicate (length pages) "Search Results"
  end.
Proof.
  cbv zeta. destruct tags as [|tag tags]; [done|].
  unfold TagCommands.tag_list, TagCommands.tag_global_list, TagCommands.tag_search,
    TagCommands.tag_global_search.
  cbn [list_truthy negb]. rewrite !show_generated_list.
  eexists _, _, _, _. repeat (split; [reflexivity|]).
  assert (Hdesc : ∀ f (pages : list string),
             (∀ i page, TagCommands.le_description (f i page) = page) →
             TagCommands.le_description <$> imap f pages = pages).
  { intros f pages Hf. apply list_eq. intros i.
    rewrite list_lookup_fmap, list_lookup_imap. destruct (pages !! i); cbn; by rewrite ?Hf. }
  assert (Hauthor : ∀ f (pages : list string) name,
             (∀ i page, TagCommands.le_author (f i page) = name) →
             TagCommands.le_author <$> imap f pages = replicate (length pages) name).
  { intros f pages name Hf. apply list_eq. intros i.
    rewrite list_lookup_fmap, list_lookup_imap.
    destruct (pages !! i) as [page|] eqn:Hi; cbn.
    - rewrite Hf. symmetry. apply lookup_replicate_2. by apply lookup_lt_Some in Hi.
    - symmetry. apply lookup_replicate_None. by apply lookup_ge_None in Hi. }
  split; [repeat constructor; by apply Hdesc|].
  repeat split; by apply Hauthor.
Qed.

(** ** tags: limits, documentation, the help texts, backups *)

(** X14: [validate_tag_count] passes exactly when the number of tags is
    below the limit of the scope: the limit of the guild for a guild (the
    global limit is not looked at), the global limit otherwise.  What it
    raises is a [TagFeedbackError] that names that limit. *)
Theorem tag_limit_by_scope (global_max_limit guild_max_limit tag_count : Z) :
  (TagCommands.validate_tag_count global_max_limit (Some guild_max_limit) tag_count
   = Returned () ↔ tag_count < guild_max_limit)
  ∧ (TagCommands.validate_tag_count global_max_limit None tag_count
     = Returned () ↔ tag_count < global_max_limit)
  ∧ (∀ guild e,
        TagCommands.validate_tag_count global_max_limit guild tag_count = Raised e →
        exn_cls e = OtherClass "TagFeedbackError"
        ∧ exn_str e
          = match guild with
            | Some limit =>
                "This server has reached the limit of **" +:+ pretty limit +:+ "** tags."
            | None =>
                "You have reached the limit of **" +:+ pretty global_max_limit
                +:+ "** global tags."
            end).
Proof.
  unfold TagCommands.validate_tag_count. split; [|split].
  - destruct (Z.leb_spec guild_max_limit tag_count); split; (discriminate || lia || done).
  - destruct (Z.leb_spec global_max_limit tag_count); split; (discriminate || lia || done).
  - intros guild e. destruct guild as [limit|];
      [destruct (limit <=? tag_count)|destruct (global_max_limit <=? tag_count)];
      by intros [= <-].
Qed.

(** [create_tag] returns the effects of its run, and raises what it
    raised. *)
Lemma create_tag_of_run (global_max_limit guild_max_limit tag_count : Z)
    (get_tag : bool → string → option TagCommands.StoredTag) (confirmed : bool)
    (initialize tag_name tagscript : string) (global_tag : bool) :
  TagCommands.create_tag global_max_limit guild_max_limit tag_count get_tag confirmed
    initialize tag_name tagscript global_tag
  = match TagCommands.create_tag_run global_max_limit guild_max_limit tag_count get_tag
            confirmed initialize tag_name tagscript global_tag with
    | (effects, Returned _) => Returned effects
    | (_, Raised e) => Raised e
    end.
Proof.
  unfold TagCommands.create_tag, TagCommands.create_tag_run. cbv zeta.
  destruct (TagCommands.validate_tag_count _ _ _) as [[]|e]; cbn; [|done].
  by destruct (get_tag global_tag tag_name), confirmed.
Qed.

(** X15: with the limit of the scope reached, the run of [create_tag] ends
    in the [TagFeedbackError] of that scope with no effect before it: no
    confirmation was asked, no tagscript edited, no tag made and nothing
    sent, also when the name is that of a registered tag that would only be
    overwritten. *)
Theorem create_tag_checks_limit_first (global_max_limit guild_max_limit tag_count : Z)
    (get_tag : bool → string → option TagCommands.StoredTag) (confirmed : bool)
    (initialize tag_name tagscript : string) (global_tag : bool) :
  (if global_tag then global_max_limit else guild_max_limit) ≤ tag_count →
  let e := TagCommands.TagFeedbackError
             (if global_tag
              then "You have reached the limit of **" +:+ pretty global_max_limit
                   +:+ "** global tags."
              else "This server has reached the limit of **" +:+ pretty guild_max_limit
                   +:+ "** tags.") in
  TagCommands.create_tag_run global_max_limit guild_max_limit tag_count get_tag confirmed
    initialize tag_name tagscript global_tag
  = ([], Raised e)
  ∧ TagCommands.create_tag global_max_limit guild_max_limit tag_count get_tag confirmed
      initialize tag_name tagscript global_tag
    = Raised e.
Proof.
  intros Hfull. cbv zeta. rewrite create_tag_of_run.
  unfold TagCommands.create_tag_run, TagCommands.validate_tag_count. cbv zeta.
  destruct global_tag.
  - by destruct (Z.leb_spec global_max_limit tag_count); [|lia].
  - by destruct (Z.leb_spec guild_max_limit tag_count); [|lia].
Qed.

Lemma create_tag_checks_limit_first_witness :
  TagCommands.create_tag_run 250 10 10
    (λ _ _, Some {| TagCommands.name_prefix := "Tag";
                    TagCommands.edit_tagscript := λ _, "Tag edited." |})
    true "Tag added." "rules" "Be kind." false
  = ([], Raised (TagCommands.TagFeedbackError
                   ("This server has reached the limit of **" +:+ pretty 10 +:+ "** tags.")))
  ∧ TagCommands.create_tag 250 10 10
      (λ _ _, Some {| TagCommands.name_prefix := "Tag";
                      TagCommands.edit_tagscript := λ _, "Tag edited." |})
      true "Tag added." "rules" "Be kind." false
    = Raised (TagCommands.TagFeedbackError
                ("This server has reached the limit of **" +:+ pretty 10 +:+ "** tags.")).
Proof.
  apply (create_tag_checks_limit_first 250 10 10
           (λ _ _, Some {| TagCommands.name_prefix := "Tag";
                           TagCommands.edit_tagscript := λ _, "Tag edited." |})
           true "Tag added." "rules" "Be kind." false).
  cbn. lia.
Defined.

(** X16: when [create_tag] returns, the number of tags was below the
    limit.  For a registered name it first asks for confirmation and never
    makes a new tag; the tagscript is edited, and the answer of the edit
    sent, only after a confirmation, and without one nothing else happens.
    For a new name the tag is made and its message sent. *)
Theorem create_tag_never_overwrites_unasked (global_max_limit guild_max_limit tag_count : Z)
    (get_tag : bool → string → option TagCommands.StoredTag) (confirmed : bool)
    (initialize tag_name tagscript : string) (global_tag : bool)
    (effects : list TagCommands.CreateEffect) :
  TagCommands.create_tag global_max_limit guild_max_limit tag_count get_tag confirmed
    initialize tag_name tagscript global_tag
  = Returned effects →
  tag_count < (if global_tag then global_max_limit else guild_max_limit)
  ∧ match get_tag global_tag tag_name with
    | Some tag =>
        (∀ g n s, TagCommands.NewTag g n s ∉ effects)
        ∧ (∃ question cancel, head effects = Some (TagCommands.AskConfirmation question cancel))
        ∧ if confirmed
          then effects !! 1%nat = Some (TagCommands.EditTagscript tagscript)
               ∧ last effects
                 = Some (TagCommands.Reply (TagCommands.edit_tagscript tag tagscript))
          else length effects = 1%nat
    | None =>
        effects = [TagCommands.NewTag global_tag tag_name tagscript;
                   TagCommands.Reply initialize]
    end.
Proof.
  unfold TagCommands.create_tag, TagCommands.validate_tag_count.
  destruct global_tag.
  - destruct (Z.leb_spec global_max_limit tag_count); [discriminate|]. cbn.
    destruct (get_tag true tag_name) as [tag|]; [destruct confirmed|];
      cbn; intros [= <-]; (split; [done|]); try done.
    + split; [|eauto].
      intros g n s. rewrite !elem_of_cons, elem_of_nil. intros [|[|[|]]]; done.
    + split; [|eauto].
      intros g n s. rewrite !elem_of_cons, elem_of_nil. intros [|]; done.
  - destruct (Z.leb_spec guild_max_limit tag_count); [discriminate|]. cbn.
    destruct (get_tag false tag_name) as [tag|]; [destruct confirmed|];
      cbn; intros [= <-]; (split; [done|]); try done.
    + split; [|eauto].
      intros g n s. rewrite !elem_of_cons, elem_of_nil. intros [|[|[|]]]; done.
    + split; [|eauto].
      intros g n s. rewrite !elem_of_cons, elem_of_nil. intros [|]; done.
Qed.

Lemma create_tag_never_overwrites_unasked_witness :
  9 < 10
  ∧ (∀ g n s, TagCommands.NewTag g n s
              ∉ [TagCommands.AskConfirmation
                   "`rules` is already a registered tag. Would you like to overwrite it?"
                   "Tag edit cancelled."])
    ∧ (∃ question cancel,
          head [TagCommands.AskConfirmation
                  "`rules` is already a registered tag. Would you like to overwrite it?"
                  "Tag edit cancelled."]
          = Some (TagCommands.AskConfirmation question cancel))
    ∧ length [TagCommands.AskConfirmation
                "`rules` is already a registered tag. Would you like to overwrite it?"
                "Tag edit cancelled."] = 1%nat.
Proof.
  apply (create_tag_never_overwrites_unasked 250 10 9
           (λ _ _, Some {| TagCommands.name_prefix := "Tag";
                           TagCommands.edit_tagscript := λ _, "Tag edited." |})
           false "Tag added." "rules" "Be kind." false).
  reflexivity.
Defined.

Lemma str_lower_truthy (s : string) :
  str_truthy (Some (TagCommands.str_lower s)) = str_truthy (Some s).
Proof. by destruct s. Qed.

Lemma str_lower_app (s t : string) :
  TagCommands.str_lower (s +:+ t) = TagCommands.str_lower s +:+ TagCommands.str_lower t.
Proof.
  induction s as [|c s IH]; [done|].
  rewrite str_app_cons. cbn [TagCommands.str_lower]. by rewrite IH, str_app_cons.
Qed.

(** A capital, A to Z or U+00C0 to U+00DE without U+00D7, and the character
    32 places on are lowered to the same character. *)
Lemma str_lower_char_capital (c : ascii) :
  (65 ≤ nat_of_ascii c ≤ 90 ∨ 192 ≤ nat_of_ascii c ≤ 214
   ∨ 216 ≤ nat_of_ascii c ≤ 222)%nat →
  TagCommands.str_lower_char (ascii_of_nat (nat_of_ascii c + 32))
  = TagCommands.str_lower_char c.
Proof.
  destruct c as [[] [] [] [] [] [] [] []]; intros H; vm_compute in H |- *;
    first [reflexivity | exfalso; lia].
Qed.

(** X17: with [exp] unset, [tag_docs] looks a keyword up regardless of its
    case: two keywords with the same lower-case form get the same answer;
    putting the small letter for a capital anywhere in the keyword (A to Z,
    and the accented capitals U+00C0 to U+00DE) does not change the answer,
    nor does lowering all of its letters A to Z.  A keyword found in the
    table is answered with the link of its block.  With [exp] set the
    answer is the search link of the keyword as it was typed, whatever the
    table holds.  Without a keyword ([None] or the empty string) the base
    page of the documentation is sent, whatever [exp] is. *)
Theorem tag_docs_ignores_case (BLOCKS : list (string * string)) (keyword other : string) :
  (TagCommands.str_lower keyword = TagCommands.str_lower other →
   TagCommands.tag_docs BLOCKS (Some keyword) false
   = TagCommands.tag_docs BLOCKS (Some other) false)
  ∧ (∀ c,
        (65 ≤ nat_of_ascii c ≤ 90 ∨ 192 ≤ nat_of_ascii c ≤ 214
         ∨ 216 ≤ nat_of_ascii c ≤ 222)%nat →
        TagCommands.tag_docs BLOCKS (Some (keyword +:+ String c other)) false
        = TagCommands.tag_docs BLOCKS
            (Some (keyword +:+ String (ascii_of_nat (nat_of_ascii c + 32)) other)) false)
  ∧ TagCommands.tag_docs BLOCKS (Some (lower keyword)) false
    = TagCommands.tag_docs BLOCKS (Some keyword) false
  ∧ (∀ block,
        keyword ≠ "" →
        TagCommands.blocks_get BLOCKS (TagCommands.str_lower keyword) = Some block →
        TagCommands.tag_docs BLOCKS (Some keyword) false
        = {| TagCommands.docs_description :=
               "Searched for -"
               +:+ String newline ("- [`" +:+ TagCommands.str_lower keyword
                                   +:+ " block`](" +:+ block +:+ ")");
             TagCommands.docs_footer := None |})
  ∧ (keyword ≠ "" →
     TagCommands.tag_docs BLOCKS (Some keyword) true
     = {| TagCommands.docs_description :=
            "Searched for [`" +:+ keyword +:+ "`](https://cogs.melonbot.io/find?q="
            +:+ keyword +:+ ")!";
          TagCommands.docs_footer :=
            Some "This method is experimental and may not show the right documentation." |})
  ∧ (∀ exp,
        TagCommands.tag_docs BLOCKS None exp
        = {| TagCommands.docs_description :=
               "- Here's the [`Tags Documentation`](https://cogs.melonbot.io/tags/), browse as you prefer.";
             TagCommands.docs_footer := None |}
        ∧ TagCommands.tag_docs BLOCKS (Some "") exp
          = TagCommands.tag_docs BLOCKS None exp).
Proof.
  assert (Hsame : ∀ k1 k2,
            TagCommands.str_lower k1 = TagCommands.str_lower k2 →
            TagCommands.tag_docs BLOCKS (Some k1) false
            = TagCommands.tag_docs BLOCKS (Some k2) false).
  { intros k1 k2 Hsame. unfold TagCommands.tag_docs. cbv zeta.
    rewrite <- (str_lower_truthy k1), <- (str_lower_truthy k2), Hsame.
    cbn [default from_option id]. by rewrite Hsame. }
  split; [apply Hsame|]. split; [|split; [|split; [|split]]].
  - intros c Hcapital. apply Hsame. rewrite !str_lower_app. cbn [TagCommands.str_lower].
    by rewrite str_lower_char_capital.
  - apply Hsame. induction keyword as [|c s IH]; [done|].
    cbn [lower TagCommands.str_lower]. rewrite IH. f_equal.
    destruct c as [[] [] [] [] [] [] [] []]; reflexivity.
  - intros block Hne Hget. unfold TagCommands.tag_docs. cbv zeta.
    apply str_truthy_Some in Hne. rewrite Hne. cbn [negb default from_option id].
    by rewrite Hget.
  - intros Hne. unfold TagCommands.tag_docs. cbv zeta.
    apply str_truthy_Some in Hne. by rewrite Hne.
  - done.
Qed.

(** Capitals with an accent are lowered as well: a keyword that ends in
    U+00C9 is looked up as the one that ends in U+00E9. *)
Example tag_docs_accented :
  TagCommands.str_lower ("CAF" +:+ String "201" "") = "caf" +:+ String "233" ""
  ∧ TagCommands.tag_docs [("caf" +:+ String "233" "", "https://cogs.melonbot.io/tags/")]
      (Some ("CAF" +:+ String "201" "")) false
    = {| TagCommands.docs_description :=
           "Searched for -"
           +:+ String newline ("- [`caf" +:+ String "233" " block`](https://cogs.melonbot.io/tags/)");
         TagCommands.docs_footer := None |}.
Proof. split; reflexivity. Qed.

Section Title.
Import TagCommands.

Lemma cases_disjoint (c : ascii) : is_upper_char c = true → is_lower_char c = false.
Proof.
  unfold is_upper_char, is_lower_char. cbv zeta.
  destruct (Nat.leb_spec 65 (nat_of_ascii c)), (Nat.leb_spec (nat_of_ascii c) 90),
    (Nat.leb_spec 97 (nat_of_ascii c)), (Nat.leb_spec (nat_of_ascii c) 122);
    cbn; try done; lia.
Qed.

Lemma lower_char_fixes (c : ascii) : is_upper_char c = false → lower_char c = c.
Proof. unfold lower_char, is_upper_char. cbv zeta. by intros ->. Qed.

Lemma upper_char_fixes (c : ascii) : is_lower_char c = false → upper_char c = c.
Proof. unfold upper_char. by intros ->. Qed.

(** A title-cased string is its own title. *)
Lemma title_of_title (s : string) (previous_is_cased cased : bool) :
  istitle_from previous_is_cased cased s = true →
  title_from previous_is_cased s = s.
Proof.
  revert previous_is_cased cased. induction s as [|c s IH]; intros prev cased; [done|].
  cbn [istitle_from title_from].
  destruct (is_upper_char c) eqn:Hup.
  - pose proof (cases_disjoint c Hup) as Hlow.
    destruct prev; [discriminate|]. intros H.
    rewrite (upper_char_fixes c Hlow), Hlow. cbn [orb]. by rewrite (IH _ _ H).
  - destruct (is_lower_char c) eqn:Hlow.
    + destruct prev; [|discriminate]. intros H.
      rewrite (lower_char_fixes c Hup). cbn [orb]. by rewrite (IH _ _ H).
    + intros H. cbn [orb]. rewrite (IH _ _ H).
      by rewrite (lower_char_fixes c Hup), (upper_char_fixes c Hlow), Tauto.if_same.
Qed.

Lemma sub_of_word (name : string) :
  _sub {| group1 := None; group0 := name |}
  = (if istitle name then "Global " else "global ") +:+ name.
Proof.
  unfold _sub. cbn [group1 group0 str_truthy]. cbv zeta.
  destruct (istitle name) eqn:Ht; [|done].
  unfold title. change ("global " +:+ name) with
    (String "g" (String "l" (String "o" (String "b" (String "a" (String "l"
       (String " " name))))))).
  cbn [title_from]. unfold istitle in Ht.
  change (is_upper_char " " || is_lower_char " ") with false.
  by rewrite (title_of_title _ _ _ Ht).
Qed.

End Title.

Section Words.
Import TagCommands.

Lemma lower_char_preimage (c d : ascii) :
  lower_char c = d → c = d ∨ c = upper_char d.
Proof.
  intros <-. destruct c as [[] [] [] [] [] [] [] []]; vm_compute; auto.
Qed.

Lemma lower_cons_preimage (s : string) (d : ascii) (t : string) :
  lower s = String d t →
  ∃ c s', s = String c s' ∧ (c = d ∨ c = upper_char d) ∧ lower s' = t.
Proof.
  destruct s as [|c s']; [discriminate|]. cbn [lower]. intros [= Hc Hs].
  exists c, s'. split; [done|]. split; [by apply lower_char_preimage|done].
Qed.

Lemma lower_nil_preimage (s : string) : lower s = "" → s = "".
Proof. by destruct s. Qed.

Ltac letters H :=
  repeat match type of H with
         | lower _ = String _ _ =>
             apply lower_cons_preimage in H as (? & ? & -> & [-> | ->] & H)
         end;
  apply lower_nil_preimage in H as ->.

(** Which of the words the pattern matches are title-cased. *)
Lemma istitle_of_word (name : string) :
  lower name ∈ tag_words →
  istitle name = bool_decide (name ∈ ["Tag"; "Tags"; "Tag'"; "Tag'S"]).
Proof.
  unfold tag_words. rewrite !elem_of_cons, elem_of_nil.
  intros [H|[H|[H|[H|[]]]]]; letters H; vm_compute; reflexivity.
Qed.

End Words.

(** X18: for a match without the "[p]" prefix, [_sub] keeps the matched
    word as it is and puts "Global " before it when the word is one of
    "Tag", "Tags", "Tag'" and "Tag'S" (the title-cased ones), and "global "
    otherwise; a match with the prefix becomes "[p]tag global". *)
Theorem sub_keeps_the_word (name : string) :
  lower name ∈ TagCommands.tag_words →
  TagCommands._sub {| TagCommands.group1 := None; TagCommands.group0 := name |}
  = (if bool_decide (name ∈ ["Tag"; "Tags"; "Tag'"; "Tag'S"]) then "Global " else "global ")
    +:+ name
  ∧ ∀ whole,
      TagCommands._sub {| TagCommands.group1 := Some "[p]"; TagCommands.group0 := whole |}
      = "[p]tag global"
      ∧ TagCommands._sub {| TagCommands.group1 := Some "[P]"; TagCommands.group0 := whole |}
        = "[p]tag global".
Proof.
  intros Hword. split; [|done].
  by rewrite sub_of_word, (istitle_of_word name Hword).
Qed.

Lemma sub_keeps_the_word_witness :
  TagCommands._sub {| TagCommands.group1 := None; TagCommands.group0 := "Tag's" |}
  = "global Tag's".
Proof.
  apply (sub_keeps_the_word "Tag's"). vm_compute.
  do 3 apply list_elem_of_further. apply list_elem_of_here.
Defined.

(** X19: the file a backup command sends restores the data it was made
    from: restoring from the message of [tag_backup], in any guild, sets the
    configuration to the data that was backed up, and likewise for the
    global backup; the files are named "tag-backup-<guild id>.json" and
    "global-tag-backup.json". *)
Theorem backup_restores {J : Type} (dumps : J → string) (loads : string → pyresult J)
    (guild_id other_guild : Z) (guild_data global_data : J) :
  loads (dumps guild_data) = Returned guild_data →
  loads (dumps global_data) = Returned global_data →
  Tags.tag_restore loads other_guild
    (TagCommands.sent_attachments (TagCommands.tag_backup dumps guild_id guild_data))
  = Returned [Tags.ConfigSet guild_data; Tags.Initialize; Tags.Tick;
              Tags.Send "Backup restored!"]
  ∧ Tags.tag_global_restore loads
      (TagCommands.sent_attachments (TagCommands.tag_global_backup dumps global_data))
    = Returned [Tags.ConfigSet global_data; Tags.Initialize; Tags.Tick;
                Tags.Send "Backup restored!"]
  ∧ Tags.filename
      <$> TagCommands.sent_attachments (TagCommands.tag_backup dumps guild_id guild_data)
    = ["tag-backup-" +:+ pretty guild_id +:+ ".json"]
  ∧ Tags.filename
      <$> TagCommands.sent_attachments (TagCommands.tag_global_backup dumps global_data)
    = ["global-tag-backup.json"].
Proof.
  intros Hguild Hglobal.
  unfold Tags.tag_restore, Tags.tag_global_restore, Tags.restore_from. cbn.
  by rewrite Hguild, Hglobal.
Qed.

Lemma backup_restores_witness :
  Tags.tag_restore (λ raw, Returned raw) 2
    (TagCommands.sent_attachments (TagCommands.tag_backup (λ data, data) 1 "{}"))
  = Returned [Tags.ConfigSet "{}"; Tags.Initialize; Tags.Tick;
              Tags.Send "Backup restored!"].
Proof.
  apply (backup_restores (λ data, data) (λ raw, Returned raw) 1 2 "{}" "{}");
    reflexivity.
Defined.
